(** * Compress-photo: the client-side JPEG recompression pipeline of [src/App.tsx]

    A shallow embedding of the [App] component: its five state variables,
    its event handlers ([handleFileSelect], [handleReset], the quality
    slider), the [processFiles] effect with its [Promise.allSettled] join,
    [compressFile], and [getCompressedFileName]. *)

From Stdlib Require Import String Ascii List ZArith QArith Qround Lia.
From stdpp Require Import gmap strings list fin_maps.

Local Open Scope string_scope.

(** ** JavaScript string primitives used by [getCompressedFileName] *)

Module JsString.

(** [s.split('.')]: the segments of [s] between the dots.  The result is
    never empty; the empty string gives one empty segment. *)
Fixpoint split_dot (s : string) : list string :=
  match s with
  | EmptyString => [ EmptyString ]
  | String c rest =>
      if Ascii.eqb c "."%char then EmptyString :: split_dot rest
      else match split_dot rest with
           | [] => [ String c EmptyString ]
           | seg :: segs => String c seg :: segs
           end
  end.

(** [parts.pop()], for the array that is left behind. *)
Definition pop (parts : list string) : list string := removelast parts.

(** [parts.join('.')]. *)
Fixpoint join_dot (parts : list string) : string :=
  match parts with
  | [] => EmptyString
  | [ p ] => p
  | p :: ps => p ++ "." ++ join_dot ps
  end.

(** [s] holds no ['.']. *)
Fixpoint dotless (s : string) : bool :=
  match s with
  | EmptyString => true
  | String c rest => negb (Ascii.eqb c "."%char) && dotless rest
  end.

(** [s.endsWith(suffix)]. *)
Definition endsWith (s suffix : string) : bool :=
  let n := String.length s in
  let k := String.length suffix in
  (k <=? n)%nat && String.eqb (substring (n - k) k s) suffix.

End JsString.

(** ** [getCompressedFileName] (App.tsx, lines 48-52) *)

Definition download_suffix : string := "_KolerskyAI_compressed.jpg".

Definition getCompressedFileName (originalName : string) : string :=
  let nameParts := JsString.split_dot originalName in
  let nameParts := JsString.pop nameParts in
  JsString.join_dot nameParts ++ download_suffix.

(** ** Browser objects *)

(** A [File]: its name, its declared media type and its bytes. *)
Record File := {
  name : string;
  type : string;
  data : list Byte.byte;
}.

(** An object URL, as [URL.createObjectURL] hands them out: the n-th URL
    created in the page is [n]; no two calls return the same one. *)
Definition Url := nat.

Record Blob := {
  blob_size : N;
  blob_type : string;
}.

(** [interface CompressedResult] (App.tsx, lines 6-10). *)
Record CompressedResult := {
  blob : Blob;
  size : N;
  url : Url;
}.

(** What a promise can be rejected with ([reason] is of type [any]). *)
Inductive JsValue :=
| JsError (message : string)
| JsStr (s : string)
| JsUndefined
| JsNull
| JsBool (b : bool)
| JsObject (toString : string).

Definition instanceof_Error (v : JsValue) : bool :=
  match v with JsError _ => true | _ => false end.

(** [String(v)]. *)
Definition String_of (v : JsValue) : string :=
  match v with
  | JsError message => if String.eqb message "" then "Error" else "Error: " ++ message
  | JsStr s => s
  | JsUndefined => "undefined"
  | JsNull => "null"
  | JsBool b => if b then "true" else "false"
  | JsObject toString => toString
  end.

(** [a || b] on strings: the empty string is the only falsy one. *)
Definition js_or (a b : string) : string :=
  if String.eqb a "" then b else a.

(** One entry of the array [Promise.allSettled] resolves to. *)
Inductive PromiseSettledResult (A : Type) :=
| fulfilled (value : A)
| rejected (reason : JsValue).
Arguments fulfilled {A} value.
Arguments rejected {A} reason.

(** The events the browser answers [compressFile] with: the reader loads
    (its result is a string, or it is not) or fails; the image loads, with
    its natural width and height, or fails. *)
Inductive ReaderEvent :=
| reader_onload (result : option string)
| reader_onerror.

Inductive ImageEvent :=
| image_onload (width height : N)
| image_onerror.

(** The browser primitives [compressFile] calls: [FileReader.readAsDataURL],
    the decoding that setting [image.src] starts, [canvas.getContext('2d')]
    for a canvas of the given size, and [canvas.toBlob] of the drawn image
    with a media type and a quality.  They are functions: the same file,
    image and quality give the same answer (a deterministic decoder and
    encoder). *)
Record Browser := {
  readAsDataURL : File -> ReaderEvent;
  decode : string -> ImageEvent;
  getContext : N -> N -> bool;
  toBlob : string -> N -> N -> string -> Q -> option Blob;
}.

(** ** [compressFile] (App.tsx, lines 54-97)

    The promise settles with the first [resolve] or [reject] reached; the
    URL counter moves only when [URL.createObjectURL] is called. *)
Definition compressFile (B : Browser) (file : File) (qualityValue : Q) (next : Url)
  : PromiseSettledResult CompressedResult * Url :=
  match readAsDataURL B file with
  | reader_onerror => (rejected (JsError "Ошибка чтения файла."), next)
  | reader_onload None => (rejected (JsError "Не удалось прочитать файл."), next)
  | reader_onload (Some dataUrl) =>
      match decode B dataUrl with
      | image_onerror => (rejected (JsError "Не удалось загрузить изображение."), next)
      | image_onload w h =>
          if getContext B w h then
            match toBlob B dataUrl w h "image/jpeg" qualityValue with
            | Some b =>
                (fulfilled {| blob := b; size := blob_size b; url := next |}, S next)
            | None => (rejected (JsError "Не удалось создать blob."), next)
            end
          else (rejected (JsError "Не удалось получить контекст холста."), next)
      end
  end.

(** ** The component state (App.tsx, lines 13-17) *)

Record AppState := {
  originalFiles : list File;
  quality : Q;
  isProcessing : bool;
  compressedResults : gmap string CompressedResult;
  errors : gmap string string;
}.

Definition default_quality : Q := 0.8.

Definition initial_state : AppState := {|
  originalFiles := [];
  quality := default_quality;
  isProcessing := false;
  compressedResults := ∅;
  errors := ∅;
|}.

(** The range input (App.tsx, lines 168-178): [min], [max], [step]. *)
Definition slider_min : Q := 0.1.
Definition slider_max : Q := 1.
Definition slider_step : Q := 0.05.

(** The positions of the range input: [min + k * step], as long as that
    stays at or below [max]. *)
Definition slider_values : list Q :=
  List.map (fun k => slider_min + inject_Z (Z.of_nat k) * slider_step)%Q
    (seq 0 (S (Z.to_nat (Qfloor ((slider_max - slider_min) / slider_step))))).

Definition on_slider (q : Q) : bool := existsb (Qeq_bool q) slider_values.

(** A run of [processFiles] suspended at its [await]: it closed over the
    batch and the quality of the render that started it. *)
Record Run := {
  run_files : list File;
  run_quality : Q;
}.

(** The page: the component state, the object URLs created so far
    ([0 .. next_url - 1]), the log of [URL.revokeObjectURL] calls (latest
    first) and the runs in flight. *)
Record World := {
  app : AppState;
  next_url : Url;
  revoked : list Url;
  pending : list Run;
}.

Definition initial_world : World := {|
  app := initial_state;
  next_url := 0;
  revoked := [];
  pending := [];
|}.

(** The URLs a results map holds: what [m.forEach(r => revoke(r.url))]
    walks over. *)
Definition result_urls (m : gmap string CompressedResult) : list Url :=
  (fun kv => url (snd kv)) <$> map_to_list m.

(** ** [handleFileSelect] (App.tsx, lines 28-37) *)

Definition is_image (file : File) : bool := String.prefix "image/" (type file).

Definition no_images_message : string := "Пожалуйста, выберите файлы изображений.".

(** The guard of line 30. *)
Definition rejects_selection (files : list File) : bool :=
  (length (List.filter is_image files) =? 0)%nat && (0 <? length files)%nat.

Definition handleFileSelect (files : list File) (st : AppState) : AppState :=
  let imageFiles := List.filter is_image files in
  if rejects_selection files then
    {| originalFiles := originalFiles st;
       quality := quality st;
       isProcessing := isProcessing st;
       compressedResults := compressedResults st;
       errors := {[ "global" := no_images_message ]} |}
  else
    {| originalFiles := take 5 imageFiles;
       quality := quality st;
       isProcessing := isProcessing st;
       compressedResults := ∅;
       errors := ∅ |}.

(** ** [handleReset] (App.tsx, lines 39-46) *)

Definition handleReset (w : World) : World := {|
  app := {| originalFiles := [];
            quality := 0.8;
            isProcessing := isProcessing (app w);
            compressedResults := ∅;
            errors := ∅ |};
  next_url := next_url w;
  revoked := result_urls (compressedResults (app w)) ++ revoked w;
  pending := pending w;
|}.

(** ** The [processFiles] effect (App.tsx, lines 99-142) *)

(** [originalFiles.map(file => compressFile(file, quality))] joined by
    [Promise.allSettled]: every task is run, whatever the others did, and
    the outcomes come back in the order of the batch.  Object URLs are
    numbered in that order. *)
Fixpoint allSettled (B : Browser) (qualityValue : Q) (files : list File) (next : Url)
  : list (PromiseSettledResult CompressedResult) * Url :=
  match files with
  | [] => ([], next)
  | file :: rest =>
      let '(r, next1) := compressFile B file qualityValue next in
      let '(rs, next2) := allSettled B qualityValue rest next1 in
      (r :: rs, next2)
  end.

Definition fallback_message : string := "Не удалось сжать.".

(** [reason.message], read once [reason instanceof Error] holds. *)
Definition message_of (reason : JsValue) : string :=
  match reason with
  | JsError message => message
  | _ => ""
  end.

(** Lines 125-129: the message recorded for a rejected task. *)
Definition failure_message (reason : JsValue) : string :=
  if instanceof_Error reason then message_of reason
  else js_or (String_of reason) fallback_message.

(** The body of [results.forEach((result, index) => ...)], lines 117-131:
    one [Map.set] on one of the two maps. *)
Definition record_outcome
    (acc : gmap string CompressedResult * gmap string string)
    (entry : File * PromiseSettledResult CompressedResult)
  : gmap string CompressedResult * gmap string string :=
  let '(newCompressedResults, newErrors) := acc in
  let '(file, result) := entry in
  match result with
  | fulfilled value => (<[name file := value]> newCompressedResults, newErrors)
  | rejected reason => (newCompressedResults, <[name file := failure_message reason]> newErrors)
  end.

(** Lines 110 and 116-131: both maps start empty and the outcomes are
    recorded in the order of the batch. *)
Definition collect_results
    (files : list File) (results : list (PromiseSettledResult CompressedResult))
  : gmap string CompressedResult * gmap string string :=
  fold_left record_outcome (zip files results) (∅, ∅).

(** Lines 103-114, up to the [await]: the results on display are revoked
    and dropped, and the tasks are launched. *)
Definition processFiles_start (w : World) : World := {|
  app := {| originalFiles := originalFiles (app w);
            quality := quality (app w);
            isProcessing := true;
            compressedResults := ∅;
            errors := errors (app w) |};
  next_url := next_url w;
  revoked := result_urls (compressedResults (app w)) ++ revoked w;
  pending := pending w ++ [ {| run_files := originalFiles (app w);
                                run_quality := quality (app w) |} ];
|}.

(** Lines 116-135, after the [await]: the run stores what it collected,
    whatever the component holds by then. *)
Definition processFiles_finish (B : Browser) (r : Run) (w : World) : World :=
  let '(results, next) := allSettled B (run_quality r) (run_files r) (next_url w) in
  let '(newCompressedResults, newErrors) := collect_results (run_files r) results in
  {| app := {| originalFiles := originalFiles (app w);
               quality := quality (app w);
               isProcessing := false;
               compressedResults := newCompressedResults;
               errors := newErrors |};
     next_url := next;
     revoked := revoked w;
     pending := pending w |}.

(** The effect itself: nothing for an empty batch (line 100). *)
Definition useEffect (w : World) : World :=
  match originalFiles (app w) with
  | [] => w
  | _ :: _ => processFiles_start w
  end.

(** ** The page as a transition system

    What can happen to the page: a selection comes in from the uploader,
    the slider moves, the reset button is pressed, or a run in flight
    settles.  Each is one turn of the event loop: the handler, the render,
    and the effect when one of its dependencies changed. *)
Inductive Event :=
| Select (files : list File)
| SetQuality (q : Q)
| Reset
| Settle (i : nat).

Definition with_app (st : AppState) (w : World) : World := {|
  app := st;
  next_url := next_url w;
  revoked := revoked w;
  pending := pending w;
|}.

Definition with_quality (q : Q) (st : AppState) : AppState := {|
  originalFiles := originalFiles st;
  quality := q;
  isProcessing := isProcessing st;
  compressedResults := compressedResults st;
  errors := errors st;
|}.

(** The run at position [i] leaves the runs in flight. *)
Definition resume (i : nat) (w : World) : World := {|
  app := app w;
  next_url := next_url w;
  revoked := revoked w;
  pending := delete i (pending w);
|}.

Definition batch_empty (w : World) : bool :=
  match originalFiles (app w) with [] => true | _ => false end.

(** [None]: the control that raises the event is not on the page, or is
    disabled.  The uploader is rendered only while the batch is empty
    (line 147) and passes on non-empty selections only; the slider and the
    reset button are rendered only with a batch, and the slider is disabled
    while [isProcessing] (line 177). *)
Definition step (B : Browser) (e : Event) (w : World) : option World :=
  match e with
  | Select files =>
      if batch_empty w && negb (length files =? 0)%nat then
        let w' := with_app (handleFileSelect files (app w)) w in
        Some (if rejects_selection files then w' else useEffect w')
      else None
  | SetQuality q =>
      if negb (batch_empty w) && negb (isProcessing (app w)) && on_slider q then
        if Qeq_bool q (quality (app w)) then Some w
        else Some (useEffect (with_app (with_quality q (app w)) w))
      else None
  | Reset =>
      if negb (batch_empty w) then Some (useEffect (handleReset w)) else None
  | Settle i =>
      match pending w !! i with
      | Some r => Some (processFiles_finish B r (resume i w))
      | None => None
      end
  end.

Fixpoint run (B : Browser) (events : list Event) (w : World) : option World :=
  match events with
  | [] => Some w
  | e :: rest =>
      match step B e w with
      | Some w' => run B rest w'
      | None => None
      end
  end.

Definition reachable (B : Browser) (w : World) : Prop :=
  exists events, run B events initial_world = Some w.

(** ** Notions the properties are stated with *)

(** An outcome without its URL: the encoded size of a success, the reason
    of a failure. *)
Definition settled_size (r : PromiseSettledResult CompressedResult)
  : PromiseSettledResult N :=
  match r with
  | fulfilled value => fulfilled (size value)
  | rejected reason => rejected reason
  end.

(** The file has a success or a failure on record, and not both. *)
Definition exactly_one_outcome (st : AppState) (file : File) : Prop :=
  (is_Some (compressedResults st !! name file) /\ errors st !! name file = None)
  \/ (compressedResults st !! name file = None /\ is_Some (errors st !! name file)).

(** The URL was created, was never revoked, and no result on display
    holds it. *)
Definition leaked (w : World) (u : Url) : Prop :=
  (u < next_url w)%nat /\ (u ∉ revoked w) /\ (u ∉ result_urls (compressedResults (app w))).

(** No URL was revoked twice, and the URLs of the results on display are
    distinct, were created, and were not revoked. *)
Definition handles_sound (w : World) : Prop :=
  NoDup (revoked w)
  /\ NoDup (result_urls (compressedResults (app w)))
  /\ (forall u, u ∈ revoked w -> (u < next_url w)%nat)
  /\ (forall u, u ∈ result_urls (compressedResults (app w)) ->
        (u < next_url w)%nat /\ (u ∉ revoked w)).

(** Every URL created so far is on display or was revoked. *)
Definition accounted (w : World) : Prop :=
  forall u, (u < next_url w)%nat ->
            u ∈ revoked w \/ u ∈ result_urls (compressedResults (app w)).

(** No run is in flight. *)
Definition idle (w : World) : bool :=
  match pending w with [] => true | _ => false end.

Definition one_file_per_name (files : list File) : bool :=
  bool_decide (NoDup (name <$> files)).

(** The event comes from a user who lets the run in flight settle before
    touching a control, and whose selections hold one file per name. *)
Definition calm (e : Event) (w : World) : bool :=
  match e with
  | Settle _ => true
  | Select files => idle w && one_file_per_name (take 5 (List.filter is_image files))
  | SetQuality _ => idle w
  | Reset => idle w
  end.

Fixpoint calm_run (B : Browser) (events : list Event) (w : World) : option World :=
  match events with
  | [] => Some w
  | e :: rest =>
      if calm e w then
        match step B e w with
        | Some w' => calm_run B rest w'
        | None => None
        end
      else None
  end.

(** What a calm page keeps true. *)
Definition calm_invariant (w : World) : Prop :=
  accounted w
  /\ (originalFiles (app w) = [] -> compressedResults (app w) = ∅)
  /\ NoDup (name <$> originalFiles (app w))
  /\ (pending w = []
      \/ (compressedResults (app w) = ∅
          /\ originalFiles (app w) <> []
          /\ pending w = [ {| run_files := originalFiles (app w);
                              run_quality := quality (app w) |} ])).

(** ** A sample page, for running the model on concrete inputs *)

Module Sample.

(** A browser that decodes the files whose bytes start with "IMG" and
    encodes to one byte per input byte. *)
Definition browser : Browser := {|
  readAsDataURL := fun file => reader_onload (Some (string_of_list_byte (data file)));
  decode := fun dataUrl =>
    if String.prefix "IMG" dataUrl then image_onload 4 3 else image_onerror;
  getContext := fun _ _ => true;
  toBlob := fun dataUrl _ _ mime _ =>
    Some {| blob_size := N.of_nat (String.length dataUrl); blob_type := mime |};
|}.

Definition file (n t d : string) : File :=
  {| name := n; type := t; data := list_byte_of_string d |}.

Definition photo : File := file "photo.png" "image/png" "IMG-photo".
Definition corrupt : File := file "corrupt.jpg" "image/jpeg" "not an image".
Definition notes : File := file "notes.txt" "text/plain" "hello".
(** Two different files that carry the same name. *)
Definition a1 : File := file "a.png" "image/png" "IMG-first".
Definition a2 : File := file "a.png" "image/png" "IMG-second-one".
Definition a_bad : File := file "a.png" "image/png" "broken".
Definition pic (n : string) : File := file n "image/jpeg" "IMG".

End Sample.

(** A second sample: a browser whose canvas cannot be encoded above a
    given area, as for oversized images, where [toBlob] gives [null]. *)

Module SampleLimit.

Definition browser : Browser := {|
  readAsDataURL := fun file => reader_onload (Some (string_of_list_byte (data file)));
  decode := fun dataUrl =>
    if String.prefix "IMG" dataUrl then image_onload 4 3
    else if String.prefix "BIG" dataUrl then image_onload 40000 30000
    else image_onerror;
  getContext := fun _ _ => true;
  toBlob := fun dataUrl w h mime _ =>
    if (w * h <=? 268435456)%N then
      Some {| blob_size := N.of_nat (String.length dataUrl); blob_type := mime |}
    else None;
|}.


End SampleLimit.

(** ** The uploader ([FileUploader], imported from ./components/FileUploader)

    Its one state variable is [isDragging].  A handler gives the new value
    of [isDragging] and the selection it hands to [onFileSelect], if it
    calls it.  [event.target.files] and [e.dataTransfer.files] may be
    missing. *)

Module FileUploader.

Definition handleFileChange (files : option (list File)) (isDragging : bool)
  : bool * option (list File) :=
  match files with
  | Some (f :: fs) => (isDragging, Some (f :: fs))
  | _ => (isDragging, None)
  end.

Definition handleDragEnter (isDragging : bool) : bool * option (list File) :=
  (true, None).

Definition handleDragLeave (isDragging : bool) : bool * option (list File) :=
  (false, None).

Definition handleDragOver (isDragging : bool) : bool * option (list File) :=
  (isDragging, None).

Definition handleDrop (files : option (list File)) (isDragging : bool)
  : bool * option (list File) :=
  match files with
  | Some (f :: fs) => (false, Some (f :: fs))
  | _ => (false, None)
  end.

(** The DOM events the label and the input listen to. *)
Inductive DomEvent :=
| onChange (files : option (list File))
| onDragEnter
| onDragLeave
| onDragOver
| onDrop (files : option (list File)).

Definition dispatch (e : DomEvent) (isDragging : bool) : bool * option (list File) :=
  match e with
  | onChange files => handleFileChange files isDragging
  | onDragEnter => handleDragEnter isDragging
  | onDragLeave => handleDragLeave isDragging
  | onDragOver => handleDragOver isDragging
  | onDrop files => handleDrop files isDragging
  end.

End FileUploader.

(** ** What the component renders (App.tsx, lines 144-231)

    The view keeps the branches of the JSX and the values they show.  The
    texts made by [formatBytes] and the [sizeReduction] percentage are
    floating-point arithmetic and are not part of it: a row carries the
    encoded size they are computed from. *)

Inductive Preview :=
| preview_spinner
| preview_img (src : Url)
| preview_none.

Inductive Status :=
| status_compressing
| status_compressed (bytes : N)
| status_error
| status_placeholder.

Record Row := {
  row_title : string;
  row_preview : Preview;
  row_status : Status;
  row_href : option Url;
  row_download : string;
  row_disabled : bool;
}.

Inductive View :=
| upload_view (global_error : option string)
| results_view (slider_value : Q) (slider_disabled : bool) (rows : list Row).

(** A string in a condition: [undefined] and the empty string are falsy. *)
Definition truthy (s : option string) : bool :=
  match s with
  | Some m => negb (String.eqb m "")
  | None => false
  end.

(** One entry of [originalFiles.map(file => ...)], lines 182-224. *)
Definition render_row (st : AppState) (file : File) : Row :=
  let result := compressedResults st !! name file in
  let error := errors st !! name file in
  let no_result := match result with Some _ => false | None => true end in
  {| row_title := name file;
     row_preview :=
       if isProcessing st && no_result then preview_spinner
       else match result with
            | Some r => preview_img (url r)
            | None => preview_none
            end;
     row_status :=
       if isProcessing st && no_result then status_compressing
       else match result with
            | Some r => status_compressed (size r)
            | None => if truthy error then status_error else status_placeholder
            end;
     row_href := url <$> result;
     row_download := getCompressedFileName (name file);
     row_disabled := no_result || isProcessing st |}.

Definition render (st : AppState) : View :=
  match originalFiles st with
  | [] => upload_view (errors st !! "global")
  | _ :: _ => results_view (quality st) (isProcessing st) (render_row st <$> originalFiles st)
  end.

(** The object URLs a view refers to: the [src] of the previews and the
    [href] of the download links. *)
Definition row_urls (row : Row) : list Url :=
  (match row_preview row with preview_img u => [u] | _ => [] end
   ++ match row_href row with Some u => [u] | None => [] end)%list.

Definition view_urls (v : View) : list Url :=
  match v with
  | upload_view _ => []
  | results_view _ _ rows => concat (row_urls <$> rows)
  end.

(** ** Further notions *)

Definition is_fulfilled (r : PromiseSettledResult CompressedResult) : bool :=
  match r with fulfilled _ => true | rejected _ => false end.

(** On a page with no run in flight and a batch, the two maps are what the
    batch on display gives at the quality on display. *)
Definition up_to_date (B : Browser) (w : World) : Prop :=
  pending w = [] -> originalFiles (app w) <> [] ->
  exists u,
    compressedResults (app w)
    = (collect_results (originalFiles (app w))
         (allSettled B (quality (app w)) (originalFiles (app w)) u).1).1
    /\ errors (app w)
       = (collect_results (originalFiles (app w))
            (allSettled B (quality (app w)) (originalFiles (app w)) u).1).2.

(** The batch, and the batch of every run in flight, holds at most five
    files, all of them images. *)
Definition batch_ok (files : list File) : Prop :=
  length files <= 5 /\ Forall (fun f => is_image f = true) files.

Definition batches_ok (w : World) : Prop :=
  batch_ok (originalFiles (app w))
  /\ Forall (fun r => batch_ok (run_files r) /\ run_files r <> []) (pending w).

(** The processing flag against the runs in flight and the results. *)
Definition flag_sound (w : World) : Prop :=
  (pending w = [] -> isProcessing (app w) = false)
  /\ (isProcessing (app w) = true -> compressedResults (app w) = ∅).

(** The messages [compressFile] rejects with (lines 61, 65, 73, 86, 93). *)
Definition compress_messages : list string :=
  [ "Не удалось прочитать файл.";
    "Ошибка чтения файла.";
    "Не удалось получить контекст холста.";
    "Не удалось создать blob.";
    "Не удалось загрузить изображение." ].

(** What is on the two maps came from the code paths that fill them: a
    result carries the size of its own blob, and an error is the message of
    a rejected selection, under ["global"], or one of the messages of
    [compressFile]. *)
Definition maps_sound (w : World) : Prop :=
  (forall k r, compressedResults (app w) !! k = Some r -> size r = blob_size (blob r))
  /\ (forall k m, errors (app w) !! k = Some m ->
        (k = "global" /\ m = no_images_message) \/ m ∈ compress_messages).

(** * Properties *)

(** ** File names *)

Section FileNames.
Import JsString.
Local Arguments String.append !_ _ / : simpl nomatch.

Lemma split_dot_not_nil (s : string) : split_dot s <> [].
Proof.
  destruct s as [|c s]; simpl; [discriminate|].
  destruct (Ascii.eqb c "."); [discriminate|].
  destruct (split_dot s); discriminate.
Qed.

Lemma split_dot_dotless (s : string) : dotless s = true -> split_dot s = [s].
Proof.
  induction s as [|c s IH]; simpl; [reflexivity|].
  destruct (Ascii.eqb c "."); simpl; [discriminate|].
  intros H. rewrite (IH H). reflexivity.
Qed.

Lemma split_dot_cons (c : ascii) (s : string) :
  Ascii.eqb c "." = false ->
  exists seg segs, split_dot s = seg :: segs /\ split_dot (String c s) = String c seg :: segs.
Proof.
  intros Hc. simpl. rewrite Hc.
  destruct (split_dot s) as [|seg segs] eqn:E.
  - destruct (split_dot_not_nil _ E).
  - eauto.
Qed.

(** Splitting at the last dot: the extension is the last segment. *)
Lemma split_dot_last (base ext : string) :
  dotless ext = true ->
  split_dot (base ++ "." ++ ext) = (split_dot base ++ [ext])%list.
Proof.
  intros Hext. induction base as [|c base IH]; simpl.
  - rewrite (split_dot_dotless _ Hext). reflexivity.
  - destruct (Ascii.eqb c ".") eqn:Hc.
    + simpl in IH. rewrite IH. reflexivity.
    + simpl in IH. rewrite IH.
      destruct (split_dot base) as [|seg segs] eqn:E.
      * destruct (split_dot_not_nil _ E).
      * reflexivity.
Qed.

Lemma join_dot_cons (p q : string) (ps : list string) :
  join_dot (p :: q :: ps) = p ++ "." ++ join_dot (q :: ps).
Proof. reflexivity. Qed.

(** [split] then [join] gives the string back. *)
Lemma join_split_dot (s : string) : join_dot (split_dot s) = s.
Proof.
  induction s as [|c s IH]; [reflexivity|].
  simpl split_dot. destruct (Ascii.eqb c ".") eqn:Hc.
  - apply Ascii.eqb_eq in Hc. subst c.
    destruct (split_dot s) as [|seg segs] eqn:E.
    + destruct (split_dot_not_nil _ E).
    + rewrite join_dot_cons, IH. reflexivity.
  - destruct (split_dot s) as [|seg segs] eqn:E.
    + destruct (split_dot_not_nil _ E).
    + destruct segs as [|seg' segs].
      * simpl in *. congruence.
      * rewrite join_dot_cons in IH. rewrite join_dot_cons, <- IH. reflexivity.
Qed.

Lemma pop_last (parts : list string) (p : string) : pop (parts ++ [p])%list = parts.
Proof. apply removelast_last. Qed.

Lemma substring_skip (x s : string) :
  substring (String.length x) (String.length s) (x ++ s) = s.
Proof.
  induction x as [|c x IH]; simpl; [|exact IH].
  induction s as [|c s IH]; simpl; [reflexivity|].
  destruct s; simpl in *; congruence.
Qed.

Lemma length_app_string (x s : string) :
  String.length (x ++ s) = (String.length x + String.length s)%nat.
Proof. induction x; simpl; congruence. Qed.

Lemma endsWith_app (x s : string) : endsWith (x ++ s) s = true.
Proof.
  unfold endsWith. rewrite length_app_string.
  replace (String.length x + String.length s - String.length s)%nat
    with (String.length x) by lia.
  rewrite substring_skip, String.eqb_refl.
  apply andb_true_iff. split; [apply Nat.leb_le; lia | reflexivity].
Qed.

Lemma string_app_assoc (a b c : string) : (a ++ b) ++ c = a ++ (b ++ c).
Proof. induction a; simpl; congruence. Qed.

(** The name of a file [base.ext]: the last dot and what follows it go. *)
Lemma getCompressedFileName_ext (base ext : string) :
  dotless ext = true ->
  getCompressedFileName (base ++ "." ++ ext) = base ++ download_suffix.
Proof.
  intros Hext. unfold getCompressedFileName.
  rewrite (split_dot_last _ _ Hext), pop_last, join_split_dot. reflexivity.
Qed.

(** Every name with a dot is of that shape. *)
Lemma last_dot (s : string) :
  dotless s = false ->
  exists base ext, s = base ++ "." ++ ext /\ dotless ext = true.
Proof.
  induction s as [|c s IH]; simpl; [discriminate|].
  destruct (dotless s) eqn:Hs.
  - rewrite andb_true_r. intros Hc. apply negb_false_iff, Ascii.eqb_eq in Hc.
    subst c. exists "", s. split; [reflexivity | exact Hs].
  - intros _. destruct (IH eq_refl) as (base & ext & -> & Hext).
    exists (String c base), ext. split; [reflexivity | exact Hext].
Qed.

End FileNames.

(** C2 as stated does not hold: the name of the download for [photo.png]
    is not [photo_compressed.jpg]; the code puts a longer suffix after the
    base name. *)
Lemma download_name_photo_differs :
  getCompressedFileName "photo.png" <> "photo" ++ "_compressed.jpg".
Proof. vm_compute. discriminate. Qed.

(** C2, amended: for a file named [base.ext], where [ext] is what follows
    the last dot, the download is named [base] followed by
    ["_KolerskyAI_compressed.jpg"]; and the download name of every file,
    whatever its extension, ends in [".jpg"]. *)
Theorem download_name (base ext other : string) :
  JsString.dotless ext = true ->
  getCompressedFileName (base ++ "." ++ ext) = base ++ "_KolerskyAI_compressed.jpg"
  /\ JsString.endsWith (getCompressedFileName other) ".jpg" = true.
Proof.
  intros Hext. split.
  - apply getCompressedFileName_ext, Hext.
  - unfold getCompressedFileName.
    change download_suffix with ("_KolerskyAI_compressed" ++ ".jpg").
    rewrite <- string_app_assoc. apply endsWith_app.
Qed.

Lemma download_name_witness :
  getCompressedFileName "photo.png" = "photo_KolerskyAI_compressed.jpg"
  /\ JsString.endsWith (getCompressedFileName "README") ".jpg" = true.
Proof. apply (download_name "photo" "png" "README"). reflexivity. Defined.

(** C10: a name without any dot is dropped whole, and the download is
    named by the bare suffix, which ends in ["_compressed.jpg"]; of a name
    with several dots only the last dot and the segment after it go. *)
Theorem download_name_dots (plain base ext : string) :
  JsString.dotless plain = true ->
  JsString.dotless ext = true ->
  getCompressedFileName plain = "_KolerskyAI_compressed.jpg"
  /\ JsString.endsWith (getCompressedFileName plain) "_compressed.jpg" = true
  /\ getCompressedFileName (base ++ "." ++ ext) = base ++ "_KolerskyAI_compressed.jpg".
Proof.
  intros Hplain Hext.
  assert (Hp : getCompressedFileName plain = "_KolerskyAI_compressed.jpg").
  { unfold getCompressedFileName.
    rewrite (split_dot_dotless _ Hplain). reflexivity. }
  split; [exact Hp|]. split.
  - rewrite Hp. reflexivity.
  - apply getCompressedFileName_ext, Hext.
Qed.

Lemma download_name_dots_witness :
  getCompressedFileName "README" = "_KolerskyAI_compressed.jpg"
  /\ JsString.endsWith (getCompressedFileName "README") "_compressed.jpg" = true
  /\ getCompressedFileName "holiday.2024.webp" = "holiday.2024_KolerskyAI_compressed.jpg".
Proof. apply (download_name_dots "README" "holiday.2024" "webp"); reflexivity. Defined.

(** ** The file filter *)

Section FileFilter.

Lemma filter_none (files : list File) :
  (forall f, In f files -> is_image f = false) -> List.filter is_image files = [].
Proof.
  induction files as [|f files IH]; intros H; simpl; [reflexivity|].
  rewrite (H f (or_introl eq_refl)). apply IH. intros g Hg. apply H. right. exact Hg.
Qed.

Lemma rejects_selection_true (files : list File) :
  files <> [] -> (forall f, In f files -> is_image f = false) ->
  rejects_selection files = true.
Proof.
  intros Hne Hnone. unfold rejects_selection.
  rewrite (filter_none _ Hnone). destruct files; [congruence | reflexivity].
Qed.

Lemma rejects_selection_false (files : list File) :
  List.filter is_image files <> [] -> rejects_selection files = false.
Proof.
  intros H. unfold rejects_selection.
  destruct (List.filter is_image files); [congruence | reflexivity].
Qed.

End FileFilter.

(** C4: a selection that is not empty and holds no file whose media type
    starts with ["image/"] raises the global error and nothing else: the
    batch and the results stay as they were, and no run is started. *)
Theorem selection_without_images (B : Browser) (files : list File) (w : World) :
  files <> [] ->
  (forall f, In f files -> is_image f = false) ->
  let st := handleFileSelect files (app w) in
  errors st = {[ "global" := no_images_message ]}
  /\ originalFiles st = originalFiles (app w)
  /\ compressedResults st = compressedResults (app w)
  /\ (batch_empty w = true -> step B (Select files) w = Some (with_app st w))
  /\ pending (with_app st w) = pending w.
Proof.
  intros Hne Hnone st.
  pose proof (rejects_selection_true _ Hne Hnone) as Hrej.
  assert (Hst : st = {| originalFiles := originalFiles (app w);
                        quality := quality (app w);
                        isProcessing := isProcessing (app w);
                        compressedResults := compressedResults (app w);
                        errors := {[ "global" := no_images_message ]} |}).
  { subst st. unfold handleFileSelect. rewrite Hrej. reflexivity. }
  split; [rewrite Hst; reflexivity|].
  split; [rewrite Hst; reflexivity|].
  split; [rewrite Hst; reflexivity|].
  split; [|reflexivity].
  intros Hempty. unfold step. rewrite Hempty, Hrej.
  destruct files; [congruence | reflexivity].
Qed.

Lemma selection_without_images_witness :
  let st := handleFileSelect [Sample.notes] initial_state in
  errors st = {[ "global" := no_images_message ]}
  /\ originalFiles st = []
  /\ compressedResults st = ∅
  /\ (batch_empty initial_world = true ->
      step Sample.browser (Select [Sample.notes]) initial_world
      = Some (with_app st initial_world))
  /\ pending (with_app st initial_world) = [].
Proof.
  apply (selection_without_images Sample.browser [Sample.notes] initial_world).
  - discriminate.
  - intros f [<- | []]. reflexivity.
Defined.

(** C5: of a selection with more than five image files the batch is the
    first five of them, in the order of the selection, and the error map is
    empty: nothing is reported for the files left out. *)
Theorem selection_over_five (B : Browser) (files : list File) (w : World) :
  5 < length (List.filter is_image files) ->
  let st := handleFileSelect files (app w) in
  originalFiles st = take 5 (List.filter is_image files)
  /\ length (originalFiles st) = 5
  /\ (exists dropped, List.filter is_image files = (originalFiles st ++ dropped)%list
                      /\ dropped <> [])
  /\ errors st = ∅
  /\ (batch_empty w = true ->
      exists w', step B (Select files) w = Some w'
                 /\ originalFiles (app w') = originalFiles st
                 /\ errors (app w') = ∅).
Proof.
  intros Hlen st.
  assert (Hrej : rejects_selection files = false).
  { apply rejects_selection_false. intros E. rewrite E in Hlen. simpl in Hlen. lia. }
  assert (Hst : st = {| originalFiles := take 5 (List.filter is_image files);
                        quality := quality (app w);
                        isProcessing := isProcessing (app w);
                        compressedResults := ∅;
                        errors := ∅ |}).
  { subst st. unfold handleFileSelect. rewrite Hrej. reflexivity. }
  assert (Htake : length (take 5 (List.filter is_image files)) = 5).
  { rewrite length_take. lia. }
  rewrite Hst. simpl. split; [reflexivity|]. split; [exact Htake|]. split.
  { exists (drop 5 (List.filter is_image files)). split.
    - symmetry. apply take_drop.
    - intros E. apply (f_equal length) in E. rewrite length_drop in E. simpl in E. lia. }
  split; [reflexivity|].
  intros Hempty. unfold step. rewrite Hempty, Hrej.
  assert (Hn : (length files =? 0)%nat = false).
  { apply Nat.eqb_neq. pose proof (List.filter_length_le is_image files). lia. }
  rewrite Hn. simpl negb. simpl andb.
  change (handleFileSelect files (app w)) with st. rewrite Hst.
  eexists. split; [reflexivity|].
  unfold useEffect. simpl.
  destruct (take 5 (List.filter is_image files)) eqn:E; [simpl in Htake; lia|].
  simpl. split; reflexivity.
Qed.

Lemma selection_over_five_witness :
  let files := [Sample.pic "1.jpg"; Sample.notes; Sample.pic "2.jpg"; Sample.pic "3.jpg";
                Sample.pic "4.jpg"; Sample.pic "5.jpg"; Sample.pic "6.jpg"] in
  let st := handleFileSelect files initial_state in
  originalFiles st = [Sample.pic "1.jpg"; Sample.pic "2.jpg"; Sample.pic "3.jpg";
                      Sample.pic "4.jpg"; Sample.pic "5.jpg"]
  /\ length (originalFiles st) = 5
  /\ (exists dropped, List.filter is_image files = (originalFiles st ++ dropped)%list
                      /\ dropped <> [])
  /\ errors st = ∅
  /\ (batch_empty initial_world = true ->
      exists w', step Sample.browser (Select files) initial_world = Some w'
                 /\ originalFiles (app w') = originalFiles st
                 /\ errors (app w') = ∅).
Proof.
  apply (selection_over_five Sample.browser
           [Sample.pic "1.jpg"; Sample.notes; Sample.pic "2.jpg"; Sample.pic "3.jpg";
            Sample.pic "4.jpg"; Sample.pic "5.jpg"; Sample.pic "6.jpg"] initial_world).
  simpl. lia.
Defined.

(** ** The quality slider *)

Section Quality.

Lemma slider_count :
  S (Z.to_nat (Qfloor ((slider_max - slider_min) / slider_step))) = 19.
Proof. reflexivity. Qed.

Lemma on_slider_position (k : Z) :
  (0 <= k <= 18)%Z -> on_slider (slider_min + inject_Z k * slider_step) = true.
Proof.
  intros Hk. unfold on_slider. apply existsb_exists.
  exists (slider_min + inject_Z k * slider_step)%Q. split.
  - unfold slider_values. apply in_map_iff. exists (Z.to_nat k). split.
    + rewrite Z2Nat.id by lia. reflexivity.
    + rewrite slider_count. apply in_seq. lia.
  - apply Qeq_bool_iff. reflexivity.
Qed.

Lemma on_slider_elim (q : Q) :
  on_slider q = true ->
  exists k : Z, (0 <= k <= 18)%Z /\ (q == slider_min + inject_Z k * slider_step)%Q.
Proof.
  unfold on_slider. intros H. apply existsb_exists in H.
  destruct H as (x & Hin & Hq). apply Qeq_bool_iff in Hq.
  unfold slider_values in Hin. apply in_map_iff in Hin.
  destruct Hin as (n & <- & Hn). rewrite slider_count in Hn. apply in_seq in Hn.
  exists (Z.of_nat n). split; [lia | exact Hq].
Qed.

Lemma on_slider_proper (p q : Q) : (p == q)%Q -> on_slider p = on_slider q.
Proof.
  intros Hpq. unfold on_slider. induction slider_values as [|x xs IH]; simpl; [reflexivity|].
  rewrite IH. f_equal.
  destruct (Qeq_bool p x) eqn:E1, (Qeq_bool q x) eqn:E2; try reflexivity.
  - apply Qeq_bool_iff in E1. apply Qeq_bool_neq in E2. destruct E2.
    rewrite <- Hpq. exact E1.
  - apply Qeq_bool_iff in E2. apply Qeq_bool_neq in E1. destruct E1.
    rewrite Hpq. exact E2.
Qed.

(** The slider offers exactly the values [0.10, 0.15, ..., 1.00]. *)
Lemma on_slider_iff (q : Q) :
  on_slider q = true <->
  (0.1 <= q /\ q <= 1)%Q /\ exists k : Z, (q == 0.1 + inject_Z k * 0.05)%Q.
Proof.
  split.
  - intros H. destruct (on_slider_elim _ H) as (k & Hk & Hq).
    split; [|exists k; exact Hq].
    rewrite Hq. unfold slider_min, slider_step, Qle, Qplus, Qmult, inject_Z. simpl. lia.
  - intros ((Hlo & Hhi) & k & Hq).
    rewrite (on_slider_proper _ _ Hq). apply on_slider_position.
    rewrite Hq in Hlo, Hhi.
    unfold Qle, Qplus, Qmult, inject_Z in Hlo, Hhi. simpl in Hlo, Hhi. lia.
Qed.

End Quality.

(** ** Runs of the page *)

Section Steps.
Variable B : Browser.

Lemma processFiles_finish_eq (r : Run) (w : World) :
  processFiles_finish B r w =
  let settled := allSettled B (run_quality r) (run_files r) (next_url w) in
  let maps := collect_results (run_files r) (fst settled) in
  {| app := {| originalFiles := originalFiles (app w);
               quality := quality (app w);
               isProcessing := false;
               compressedResults := fst maps;
               errors := snd maps |};
     next_url := snd settled;
     revoked := revoked w;
     pending := pending w |}.
Proof.
  unfold processFiles_finish.
  destruct (allSettled B (run_quality r) (run_files r) (next_url w)) as [results next].
  simpl. destruct (collect_results (run_files r) results). reflexivity.
Qed.

Lemma useEffect_cases (w : World) :
  (originalFiles (app w) = [] /\ useEffect w = w)
  \/ (originalFiles (app w) <> [] /\ useEffect w = processFiles_start w).
Proof.
  unfold useEffect. destruct (originalFiles (app w)); [left | right]; split; congruence.
Qed.

Lemma run_app (events1 events2 : list Event) (w : World) :
  run B (events1 ++ events2) w =
  match run B events1 w with
  | Some w' => run B events2 w'
  | None => None
  end.
Proof.
  revert w. induction events1 as [|e events1 IH]; intros w; simpl; [reflexivity|].
  destruct (step B e w); [apply IH | reflexivity].
Qed.

(** What holds at the start and is kept by every step holds in every
    state the page can reach. *)
Lemma reachable_ind (P : World -> Prop) :
  P initial_world ->
  (forall e w w', P w -> step B e w = Some w' -> P w') ->
  forall w, reachable B w -> P w.
Proof.
  intros Hinit Hstep w [events Hrun]. revert w Hrun.
  induction events as [|e events IH] using rev_ind; intros w Hrun.
  - simpl in Hrun. congruence.
  - rewrite run_app in Hrun. destruct (run B events initial_world) as [w0|] eqn:E;
      [|discriminate].
    simpl in Hrun. destruct (step B e w0) as [w1|] eqn:Es; [|discriminate].
    inversion Hrun; subst. eapply Hstep; [apply IH; reflexivity | exact Es].
Qed.

Lemma reachable_step (e : Event) (w w' : World) :
  reachable B w -> step B e w = Some w' -> reachable B w'.
Proof.
  intros [events Hrun] Hs. exists (events ++ [e])%list.
  rewrite run_app, Hrun. simpl. rewrite Hs. reflexivity.
Qed.

Lemma useEffect_quality (w : World) : quality (app (useEffect w)) = quality (app w).
Proof. destruct (useEffect_cases w) as [[_ ->] | [_ ->]]; reflexivity. Qed.

Lemma handleFileSelect_quality (files : list File) (st : AppState) :
  quality (handleFileSelect files st) = quality st.
Proof. unfold handleFileSelect. destruct (rejects_selection files); reflexivity. Qed.

Lemma step_quality (e : Event) (w w' : World) :
  on_slider (quality (app w)) = true ->
  step B e w = Some w' ->
  on_slider (quality (app w')) = true.
Proof.
  intros Hq Hs. destruct e as [files | q | | i]; simpl in Hs.
  - destruct (batch_empty w && negb (length files =? 0)%nat); [|discriminate].
    inversion Hs; subst; clear Hs.
    destruct (rejects_selection files); rewrite ?useEffect_quality; simpl;
      rewrite handleFileSelect_quality; exact Hq.
  - destruct (negb (batch_empty w) && negb (isProcessing (app w))); simpl in Hs;
      [|discriminate].
    destruct (on_slider q) eqn:Hon; [|discriminate].
    destruct (Qeq_bool q (quality (app w))); inversion Hs; subst; clear Hs;
      [exact Hq|].
    rewrite useEffect_quality. exact Hon.
  - destruct (negb (batch_empty w)); [|discriminate].
    inversion Hs; subst; clear Hs. rewrite useEffect_quality. reflexivity.
  - destruct (pending w !! i) as [r|]; [|discriminate].
    inversion Hs; subst; clear Hs. rewrite processFiles_finish_eq. exact Hq.
Qed.

End Steps.

(** The slider as a control: what moving it does. *)
Section Slider.
Variable B : Browser.

(** With a batch on display and no run in progress the slider takes every
    one of its positions: the quality becomes that value, the batch stays,
    and, when the value is a new one, exactly one run starts over the batch
    at the new quality. *)
Lemma slider_sets (w : World) (q : Q) :
  batch_empty w = false ->
  isProcessing (app w) = false ->
  on_slider q = true ->
  exists w',
    step B (SetQuality q) w = Some w'
    /\ (quality (app w') == q)%Q
    /\ originalFiles (app w') = originalFiles (app w)
    /\ (Qeq_bool q (quality (app w)) = false ->
        quality (app w') = q
        /\ pending w' = (pending w ++ [ {| run_files := originalFiles (app w);
                                           run_quality := q |} ])%list).
Proof.
  intros Hb Hp Hq. unfold step. rewrite Hb, Hp, Hq. simpl.
  destruct (Qeq_bool q (quality (app w))) eqn:E.
  - exists w. split; [reflexivity|]. split.
    + apply Qeq_bool_iff in E. symmetry. exact E.
    + split; [reflexivity | discriminate].
  - eexists. split; [reflexivity|].
    destruct (useEffect_cases (with_app (with_quality q (app w)) w))
      as [[Hnil ->] | [_ ->]].
    + simpl in Hnil. unfold batch_empty in Hb. rewrite Hnil in Hb. discriminate Hb.
    + simpl. split; [reflexivity|]. split; [reflexivity|].
      intros _. split; reflexivity.
Qed.

(** A value that is not a position of the slider cannot be set. *)
Lemma slider_refuses (w : World) (q : Q) :
  on_slider q = false -> step B (SetQuality q) w = None.
Proof.
  intros Hq. unfold step. rewrite Hq, andb_false_r. reflexivity.
Qed.

(** The page reaches a state in which the slider is enabled. *)
Lemma slider_enabled_state :
  exists w, reachable B w /\ batch_empty w = false /\ isProcessing (app w) = false.
Proof.
  exists (processFiles_finish B {| run_files := [Sample.photo]; run_quality := 0.8 |}
            {| app := {| originalFiles := [Sample.photo];
                         quality := 0.8;
                         isProcessing := true;
                         compressedResults := ∅;
                         errors := ∅ |};
               next_url := 0; revoked := []; pending := [] |}).
  split.
  - exists [Select [Sample.photo]; Settle 0]. reflexivity.
  - rewrite processFiles_finish_eq. split; reflexivity.
Qed.

Lemma slider_reaches (q : Q) :
  on_slider q = true -> exists w, reachable B w /\ (quality (app w) == q)%Q.
Proof.
  intros Hq. destruct slider_enabled_state as (w & Hreach & Hb & Hp).
  destruct (slider_sets w q Hb Hp Hq) as (w' & Hs & Hq' & _).
  exists w'. split; [|exact Hq'].
  eapply reachable_step; eauto.
Qed.

End Slider.

(** C8: the quality starts at 0.80.  The slider offers exactly the values
    of [0.10, 1.00] that lie a whole number of steps of 0.05 above 0.10:
    with a batch on display and no run in progress each of them can be set
    and becomes the quality of the page and of the run that starts, no
    other value can be set, each of them is the quality of some state the
    page can reach, and the quality of the page is one of them at all
    times. *)
Theorem quality_range (B : Browser) :
  quality initial_state = 0.8%Q
  /\ slider_min = 0.1%Q /\ slider_max = 1%Q /\ slider_step = 0.05%Q
  /\ (forall q : Q,
        on_slider q = true <->
        (0.1 <= q /\ q <= 1)%Q /\ exists k : Z, (q == 0.1 + inject_Z k * 0.05)%Q)
  /\ on_slider 0.1 = true /\ on_slider 1 = true
  /\ (forall w, reachable B w -> on_slider (quality (app w)) = true)
  /\ (forall w q,
        batch_empty w = false -> isProcessing (app w) = false -> on_slider q = true ->
        exists w',
          step B (SetQuality q) w = Some w'
          /\ (quality (app w') == q)%Q
          /\ originalFiles (app w') = originalFiles (app w)
          /\ (Qeq_bool q (quality (app w)) = false ->
              quality (app w') = q
              /\ pending w' = (pending w ++ [ {| run_files := originalFiles (app w);
                                                 run_quality := q |} ])%list))
  /\ (forall w q, on_slider q = false -> step B (SetQuality q) w = None)
  /\ (forall q, on_slider q = true ->
        exists w, reachable B w /\ (quality (app w) == q)%Q).
Proof.
  do 4 (split; [reflexivity|]).
  split; [exact on_slider_iff|].
  do 2 (split; [reflexivity|]).
  split.
  { apply (reachable_ind B (fun w => on_slider (quality (app w)) = true)).
    - reflexivity.
    - intros e w0 w1. apply step_quality. }
  split; [exact (slider_sets B)|].
  split; [exact (slider_refuses B)|].
  exact (slider_reaches B).
Qed.

Lemma quality_range_witness :
  exists w,
    run Sample.browser [Select [Sample.photo]; Settle 0] initial_world = Some w
    /\ (exists w', step Sample.browser (SetQuality 0.15) w = Some w'
                   /\ (quality (app w') == 0.15)%Q)
    /\ step Sample.browser (SetQuality 0.12) w = None.
Proof.
  eexists. split; [vm_compute; reflexivity|].
  destruct (quality_range Sample.browser)
    as (_ & _ & _ & _ & _ & _ & _ & _ & Hset & Hno & _).
  split.
  - match goal with
    | |- exists w', step _ _ ?w = Some w' /\ _ =>
        destruct (Hset w 0.15%Q eq_refl eq_refl eq_refl) as (w' & Hs & Hq & _)
    end.
    exists w'. split; assumption.
  - apply Hno. reflexivity.
Defined.

(** ** Reset *)

Lemma handleReset_app (w : World) :
  app (handleReset w) = {| originalFiles := [];
                           quality := default_quality;
                           isProcessing := isProcessing (app w);
                           compressedResults := ∅;
                           errors := ∅ |}.
Proof. reflexivity. Qed.

Lemma elem_of_result_urls (m : gmap string CompressedResult) (u : Url) :
  u ∈ result_urls m <-> exists k r, m !! k = Some r /\ url r = u.
Proof.
  unfold result_urls. rewrite list_elem_of_fmap. split.
  - intros ([k r] & -> & Hin). apply elem_of_map_to_list in Hin. eauto.
  - intros (k & r & Hm & <-). exists (k, r). split; [reflexivity|].
    apply elem_of_map_to_list. exact Hm.
Qed.

(** C9 as stated does not hold: a reset pressed while a run is in flight
    leaves [isProcessing] set, so the state is not the initial one. *)
Lemma reset_while_processing :
  exists w w',
    run Sample.browser [Select [Sample.photo]] initial_world = Some w
    /\ step Sample.browser Reset w = Some w'
    /\ w' = handleReset w
    /\ isProcessing (app w') = true
    /\ app w' <> initial_state.
Proof.
  eexists. eexists. split; [reflexivity|]. split; [reflexivity|].
  split; [reflexivity|]. split; [reflexivity|].
  intros E. apply (f_equal isProcessing) in E. discriminate E.
Qed.

(** C9, amended: [handleReset], in every state, revokes the URL of every
    result on display and nothing else, empties the batch and the results,
    clears every error, the global one included, and sets the quality back
    to 0.8; it leaves [isProcessing] and the runs in flight as they are, so
    that the state of the component after a reset is the initial state
    exactly when no run was in progress. *)
Theorem handleReset_restores (w : World) :
  (forall k r, compressedResults (app w) !! k = Some r -> url r ∈ revoked (handleReset w))
  /\ (forall u, u ∈ revoked (handleReset w) <->
                u ∈ result_urls (compressedResults (app w)) \/ u ∈ revoked w)
  /\ originalFiles (app (handleReset w)) = []
  /\ compressedResults (app (handleReset w)) = ∅
  /\ quality (app (handleReset w)) = 0.8%Q
  /\ (forall k, errors (app (handleReset w)) !! k = None)
  /\ isProcessing (app (handleReset w)) = isProcessing (app w)
  /\ pending (handleReset w) = pending w
  /\ next_url (handleReset w) = next_url w
  /\ (app (handleReset w) = initial_state <-> isProcessing (app w) = false).
Proof.
  split.
  { intros k r Hk. simpl. apply elem_of_app. left. apply elem_of_result_urls. eauto. }
  split.
  { intros u. simpl. apply elem_of_app. }
  do 3 (split; [reflexivity|]).
  split.
  { intros k. apply lookup_empty. }
  do 3 (split; [reflexivity|]).
  rewrite handleReset_app. split.
  - intros E. apply (f_equal isProcessing) in E. exact E.
  - intros ->. reflexivity.
Qed.

Lemma handleReset_restores_witness :
  exists w,
    run Sample.browser [Select [Sample.photo; Sample.corrupt]; Settle 0] initial_world = Some w
    /\ app (handleReset w) = initial_state
    /\ revoked (handleReset w) = [0]
    /\ (forall k r, compressedResults (app w) !! k = Some r -> url r ∈ revoked (handleReset w)).
Proof.
  eexists. split; [vm_compute; reflexivity|].
  match goal with
  | |- app (handleReset ?w) = _ /\ _ =>
      destruct (handleReset_restores w) as (Hall & _ & _ & _ & _ & _ & _ & _ & _ & Hinit)
  end.
  split; [apply Hinit; reflexivity|]. split; [vm_compute; reflexivity | exact Hall].
Defined.

(** ** Settling a run *)

Section Settling.
Variable B : Browser.

(** A task creates one URL, the next one, exactly when it succeeds; when
    it fails it rejects with an [Error] that carries a message. *)
Lemma compressFile_cases (file : File) (q : Q) (next : Url) :
  (exists b, compressFile B file q next
             = (fulfilled {| blob := b; size := blob_size b; url := next |}, S next))
  \/ (exists message, message <> ""
                      /\ compressFile B file q next = (rejected (JsError message), next)).
Proof.
  unfold compressFile.
  destruct (readAsDataURL B file) as [[dataUrl|]|];
    [|right; eexists; split; [|reflexivity]; discriminate..].
  destruct (decode B dataUrl) as [width height|];
    [|right; eexists; split; [|reflexivity]; discriminate].
  destruct (getContext B width height);
    [|right; eexists; split; [|reflexivity]; discriminate].
  destruct (toBlob B dataUrl width height "image/jpeg" q) as [b|];
    [left; eexists; reflexivity | right; eexists; split; [|reflexivity]; discriminate].
Qed.

(** The URL counter has no say in what a task yields. *)
Lemma compressFile_settled_size (file : File) (q : Q) (u1 u2 : Url) :
  settled_size (compressFile B file q u1).1 = settled_size (compressFile B file q u2).1.
Proof.
  unfold compressFile.
  destruct (readAsDataURL B file) as [[dataUrl|]|]; try reflexivity.
  destruct (decode B dataUrl) as [width height|]; try reflexivity.
  destruct (getContext B width height); try reflexivity.
  destruct (toBlob B dataUrl width height "image/jpeg" q); reflexivity.
Qed.

Lemma allSettled_cons (q : Q) (file : File) (rest : list File) (u : Url) :
  allSettled B q (file :: rest) u =
  ((compressFile B file q u).1 :: (allSettled B q rest (compressFile B file q u).2).1,
   (allSettled B q rest (compressFile B file q u).2).2).
Proof.
  simpl. destruct (compressFile B file q u) as [r next1]. simpl.
  destruct (allSettled B q rest next1). reflexivity.
Qed.

(** Every task settles: one outcome per file, in the order of the batch. *)
Lemma allSettled_length (q : Q) (files : list File) (u : Url) :
  length (allSettled B q files u).1 = length files.
Proof.
  revert u. induction files as [|file rest IH]; intros u; [reflexivity|].
  rewrite allSettled_cons. simpl. rewrite IH. reflexivity.
Qed.

Lemma compressFile_next (file : File) (q : Q) (u : Url) :
  u <= (compressFile B file q u).2 <= S u.
Proof.
  destruct (compressFile_cases file q u) as [(b & ->) | (m & _ & ->)]; simpl; lia.
Qed.

Lemma allSettled_next (q : Q) (files : list File) (u : Url) :
  u <= (allSettled B q files u).2.
Proof.
  revert u. induction files as [|file rest IH]; intros u; [simpl; lia|].
  rewrite allSettled_cons. simpl.
  pose proof (compressFile_next file q u). pose proof (IH (compressFile B file q u).2). lia.
Qed.

(** The outcome at position [i] is the outcome of the task of the file at
    position [i], whatever the other tasks did. *)
Lemma allSettled_lookup (q : Q) (files : list File) (u : Url) (i : nat) (file : File) :
  files !! i = Some file ->
  exists ui, (allSettled B q files u).1 !! i = Some (compressFile B file q ui).1.
Proof.
  revert u i. induction files as [|f rest IH]; intros u i Hi; [discriminate|].
  rewrite allSettled_cons. destruct i as [|i]; simpl in *.
  - inversion Hi; subst. eauto.
  - apply IH. exact Hi.
Qed.

(** The URLs of a run are fresh. *)
Lemma allSettled_url_range (q : Q) (files : list File) (u : Url) (i : nat)
    (v : CompressedResult) :
  (allSettled B q files u).1 !! i = Some (fulfilled v) ->
  u <= url v < (allSettled B q files u).2.
Proof.
  revert u i. induction files as [|f rest IH]; intros u i Hi; [discriminate|].
  rewrite allSettled_cons in Hi |- *. simpl in *.
  pose proof (allSettled_next q rest (compressFile B f q u).2) as Hn.
  destruct i as [|i]; simpl in Hi.
  - destruct (compressFile_cases f q u) as [(b & E) | (m & _ & E)];
      rewrite E in Hi, Hn |- *; simpl in *; inversion Hi; subst; simpl. lia.
  - apply IH in Hi. pose proof (compressFile_next f q u). lia.
Qed.

(** No two outcomes of a run share a URL. *)
Lemma allSettled_url_inj (q : Q) (files : list File) (u : Url) (i j : nat)
    (v v' : CompressedResult) :
  (allSettled B q files u).1 !! i = Some (fulfilled v) ->
  (allSettled B q files u).1 !! j = Some (fulfilled v') ->
  url v = url v' -> i = j.
Proof.
  revert u i j. induction files as [|f rest IH]; intros u i j Hi Hj Hu; [discriminate|].
  rewrite allSettled_cons in Hi, Hj. simpl in Hi, Hj.
  assert (Hhead : forall w, (compressFile B f q u).1 = fulfilled w ->
                            url w = u /\ (compressFile B f q u).2 = S u).
  { intros w Hw. destruct (compressFile_cases f q u) as [(b & E) | (m & _ & E)];
      rewrite E in Hw |- *; simpl in *; inversion Hw; subst. split; reflexivity. }
  destruct i as [|i], j as [|j]; simpl in Hi, Hj.
  - reflexivity.
  - inversion Hi as [Hi']. destruct (Hhead _ Hi') as [Hv Hn].
    apply allSettled_url_range in Hj. lia.
  - inversion Hj as [Hj']. destruct (Hhead _ Hj') as [Hv Hn].
    apply allSettled_url_range in Hi. lia.
  - f_equal. eapply IH; eauto.
Qed.

(** A rejected task carries an [Error] with a message of its own. *)
Lemma allSettled_rejected (q : Q) (files : list File) (u : Url) (i : nat)
    (reason : JsValue) :
  (allSettled B q files u).1 !! i = Some (rejected reason) ->
  exists message, reason = JsError message /\ message <> "".
Proof.
  revert u i. induction files as [|f rest IH]; intros u i Hi; [discriminate|].
  rewrite allSettled_cons in Hi. destruct i as [|i]; simpl in Hi.
  - destruct (compressFile_cases f q u) as [(b & E) | (m & Hm & E)];
      rewrite E in Hi; simpl in Hi; inversion Hi; subst. eauto.
  - eapply IH. exact Hi.
Qed.

Lemma allSettled_settled_size (q : Q) (files : list File) (u1 u2 : Url) :
  settled_size <$> (allSettled B q files u1).1
  = settled_size <$> (allSettled B q files u2).1.
Proof.
  revert u1 u2. induction files as [|f rest IH]; intros u1 u2; [reflexivity|].
  rewrite !allSettled_cons. cbn [fst snd]. rewrite !fmap_cons.
  f_equal; [apply compressFile_settled_size | apply IH].
Qed.

End Settling.

(** ** Recording the outcomes *)

Section Collecting.
Implicit Types (entries : list (File * PromiseSettledResult CompressedResult)).
Implicit Types (rs : gmap string CompressedResult) (es : gmap string string).

Lemma zip_lookup (files : list File)
    (results : list (PromiseSettledResult CompressedResult)) (i : nat)
    (file : File) (r : PromiseSettledResult CompressedResult) :
  zip files results !! i = Some (file, r) <->
  files !! i = Some file /\ results !! i = Some r.
Proof.
  rewrite lookup_zip_with_Some. split.
  - intros (x & y & E & Hx & Hy). inversion E; subst. split; assumption.
  - intros [Hx Hy]. exists file, r. repeat split; assumption.
Qed.

(** A success on record is the value some fulfilled task of that name
    set, unless it was on record before. *)
Lemma fold_results_Some entries rs es (k : string) (v : CompressedResult) :
  (fold_left record_outcome entries (rs, es)).1 !! k = Some v ->
  rs !! k = Some v
  \/ exists i file, entries !! i = Some (file, fulfilled v) /\ name file = k.
Proof.
  revert rs es. induction entries as [|[file r] entries IH]; intros rs es H; simpl in H.
  - left. exact H.
  - destruct r as [value|reason]; apply IH in H as [H | (i & f & Hi & Hf)].
    + apply lookup_insert_Some in H as [[Hk Hv] | [_ H]].
      * right. exists 0, file. subst. split; reflexivity.
      * left. exact H.
    + right. exists (S i), f. split; assumption.
    + left. exact H.
    + right. exists (S i), f. split; assumption.
Qed.

(** A failure on record is the message of some rejected task of that
    name, unless it was on record before. *)
Lemma fold_errors_Some entries rs es (k message : string) :
  (fold_left record_outcome entries (rs, es)).2 !! k = Some message ->
  es !! k = Some message
  \/ exists i file reason, entries !! i = Some (file, rejected reason)
                           /\ name file = k /\ message = failure_message reason.
Proof.
  revert rs es. induction entries as [|[file r] entries IH]; intros rs es H; simpl in H.
  - left. exact H.
  - destruct r as [value|reason]; apply IH in H as [H | (i & f & x & Hi & Hf & Hm)].
    + left. exact H.
    + right. exists (S i), f, x. repeat split; assumption.
    + apply lookup_insert_Some in H as [[Hk Hv] | [_ H]].
      * right. exists 0, file, reason. subst. repeat split; reflexivity.
      * left. exact H.
    + right. exists (S i), f, x. repeat split; assumption.
Qed.

(** Nothing is ever taken off a map. *)
Lemma fold_results_keeps entries rs es (k : string) :
  is_Some (rs !! k) -> is_Some ((fold_left record_outcome entries (rs, es)).1 !! k).
Proof.
  revert rs es. induction entries as [|[file r] entries IH]; intros rs es H; simpl.
  - exact H.
  - destruct r as [value|reason]; apply IH; [|exact H].
    rewrite lookup_insert_is_Some. destruct (decide (name file = k)); auto.
Qed.

Lemma fold_errors_keeps entries rs es (k : string) :
  is_Some (es !! k) -> is_Some ((fold_left record_outcome entries (rs, es)).2 !! k).
Proof.
  revert rs es. induction entries as [|[file r] entries IH]; intros rs es H; simpl.
  - exact H.
  - destruct r as [value|reason]; apply IH; [exact H|].
    rewrite lookup_insert_is_Some. destruct (decide (name file = k)); auto.
Qed.

(** A fulfilled task puts the name of its file on the results map. *)
Lemma fold_results_fulfilled entries rs es (i : nat) (file : File)
    (v : CompressedResult) :
  entries !! i = Some (file, fulfilled v) ->
  is_Some ((fold_left record_outcome entries (rs, es)).1 !! name file).
Proof.
  revert rs es i. induction entries as [|[f r] entries IH]; intros rs es i Hi;
    [discriminate|].
  destruct i as [|i]; simpl in Hi.
  - inversion Hi; subst. simpl. apply fold_results_keeps.
    rewrite lookup_insert_eq. eauto.
  - simpl. destruct r; eapply IH; exact Hi.
Qed.

(** A rejected task puts the name of its file on the error map. *)
Lemma fold_errors_rejected entries rs es (i : nat) (file : File) (reason : JsValue) :
  entries !! i = Some (file, rejected reason) ->
  is_Some ((fold_left record_outcome entries (rs, es)).2 !! name file).
Proof.
  revert rs es i. induction entries as [|[f r] entries IH]; intros rs es i Hi;
    [discriminate|].
  destruct i as [|i]; simpl in Hi.
  - inversion Hi; subst. simpl. apply fold_errors_keeps.
    rewrite lookup_insert_eq. eauto.
  - simpl. destruct r; eapply IH; exact Hi.
Qed.

Variables (files : list File) (results : list (PromiseSettledResult CompressedResult)).

Lemma collect_results_Some (k : string) (v : CompressedResult) :
  (collect_results files results).1 !! k = Some v ->
  exists i file, files !! i = Some file /\ results !! i = Some (fulfilled v)
                 /\ name file = k.
Proof.
  intros H. apply fold_results_Some in H as [H | (i & f & Hi & Hf)].
  - rewrite lookup_empty in H. discriminate.
  - apply zip_lookup in Hi as [? ?]. eauto.
Qed.

Lemma collect_errors_Some (k message : string) :
  (collect_results files results).2 !! k = Some message ->
  exists i file reason, files !! i = Some file /\ results !! i = Some (rejected reason)
                        /\ name file = k /\ message = failure_message reason.
Proof.
  intros H. apply fold_errors_Some in H as [H | (i & f & x & Hi & Hf & Hm)].
  - rewrite lookup_empty in H. discriminate.
  - apply zip_lookup in Hi as [? ?]. eauto 10.
Qed.

Lemma collect_results_fulfilled (i : nat) (file : File) (v : CompressedResult) :
  files !! i = Some file -> results !! i = Some (fulfilled v) ->
  is_Some ((collect_results files results).1 !! name file).
Proof.
  intros Hf Hr. eapply fold_results_fulfilled. apply zip_lookup. eauto.
Qed.

Lemma collect_errors_rejected (i : nat) (file : File) (reason : JsValue) :
  files !! i = Some file -> results !! i = Some (rejected reason) ->
  is_Some ((collect_results files results).2 !! name file).
Proof.
  intros Hf Hr. eapply fold_errors_rejected. apply zip_lookup. eauto.
Qed.

(** With one file per name, a position is known by the name of its file. *)
Lemma name_position (i j : nat) (f g : File) :
  NoDup (name <$> files) ->
  files !! i = Some f -> files !! j = Some g -> name f = name g -> i = j.
Proof.
  intros Hnd Hi Hj Hn. eapply NoDup_lookup; [exact Hnd | |].
  - rewrite list_lookup_fmap, Hi. reflexivity.
  - rewrite list_lookup_fmap, Hj. simpl. congruence.
Qed.

(** With one file per name, each file has the outcome of its own task on
    record, and on one map only. *)
Lemma collect_results_own (i : nat) (file : File)
    (r : PromiseSettledResult CompressedResult) :
  NoDup (name <$> files) ->
  files !! i = Some file -> results !! i = Some r ->
  match r with
  | fulfilled v =>
      (collect_results files results).1 !! name file = Some v
      /\ (collect_results files results).2 !! name file = None
  | rejected reason =>
      (collect_results files results).1 !! name file = None
      /\ (collect_results files results).2 !! name file = Some (failure_message reason)
  end.
Proof.
  intros Hnd Hf Hr.
  assert (Hrs : forall v, (collect_results files results).1 !! name file = Some v ->
                          r = fulfilled v).
  { intros v Hv. apply collect_results_Some in Hv as (j & g & Hg & Hj & Hn).
    assert (j = i) by (eapply name_position; eauto). subst j. congruence. }
  assert (Hes : forall m, (collect_results files results).2 !! name file = Some m ->
                          exists reason, r = rejected reason /\ m = failure_message reason).
  { intros m Hm. apply collect_errors_Some in Hm as (j & g & x & Hg & Hj & Hn & ->).
    assert (j = i) by (eapply name_position; eauto). subst j. exists x. split; congruence. }
  destruct r as [v|reason].
  - split.
    + destruct (collect_results_fulfilled i file v Hf Hr) as [v' Hv'].
      rewrite Hv'. apply Hrs in Hv'. congruence.
    + destruct ((collect_results files results).2 !! name file) as [m|] eqn:E;
        [|reflexivity].
      destruct (Hes m eq_refl) as (x & Hx & _). discriminate.
  - split.
    + destruct ((collect_results files results).1 !! name file) as [v|] eqn:E;
        [|reflexivity].
      specialize (Hrs v eq_refl). discriminate.
    + destruct (collect_errors_rejected i file reason Hf Hr) as [m Hm].
      rewrite Hm. destruct (Hes m Hm) as (x & Hx & ->). congruence.
Qed.

End Collecting.

(** ** One outcome per file *)

(** Whatever the names, every file of the run ends on one of the two maps. *)
Lemma each_file_some_outcome (B : Browser) (r : Run) (w : World) (i : nat) (file : File) :
  run_files r !! i = Some file ->
  let st := app (processFiles_finish B r w) in
  is_Some (compressedResults st !! name file) \/ is_Some (errors st !! name file).
Proof.
  intros Hf. rewrite processFiles_finish_eq. simpl.
  destruct (allSettled_lookup B (run_quality r) _ (next_url w) _ _ Hf) as (ui & Hr).
  destruct (compressFile B file (run_quality r) ui).1 as [v|reason].
  - left. eapply collect_results_fulfilled; eauto.
  - right. eapply collect_errors_rejected; eauto.
Qed.

(** C3 fails on the code.  Two files of a batch carry the same name; the
    task of the first succeeds and the task of the second fails.  Once the
    run has settled that name is on both maps, so neither file has exactly
    one outcome, and the row of the file that failed shows the size and the
    preview of the other file, with the download enabled on the other
    file's URL. *)
Theorem same_name_both_outcomes :
  exists w,
    run Sample.browser [Select [Sample.a1; Sample.a_bad]; Settle 0] initial_world = Some w
    /\ originalFiles (app w) = [Sample.a1; Sample.a_bad]
    /\ isProcessing (app w) = false
    /\ pending w = []
    /\ (allSettled Sample.browser 0.8 [Sample.a1; Sample.a_bad] 0).1 !! 1
       = Some (rejected (JsError "Не удалось загрузить изображение."))
    /\ (url <$> compressedResults (app w) !! "a.png") = Some 0
    /\ errors (app w) !! "a.png" = Some "Не удалось загрузить изображение."
    /\ ~ exactly_one_outcome (app w) Sample.a1
    /\ ~ exactly_one_outcome (app w) Sample.a_bad
    /\ row_status (render_row (app w) Sample.a_bad) = status_compressed 9
    /\ row_preview (render_row (app w) Sample.a_bad) = preview_img 0
    /\ row_href (render_row (app w) Sample.a_bad) = Some 0
    /\ row_disabled (render_row (app w) Sample.a_bad) = false.
Proof.
  eexists. split; [vm_compute; reflexivity|].
  do 3 (split; [reflexivity|]).
  do 3 (split; [vm_compute; reflexivity|]).
  split; [intros [[_ H] | [H _]]; vm_compute in H; discriminate H|].
  split; [intros [[_ H] | [H _]]; vm_compute in H; discriminate H|].
  repeat split; vm_compute; reflexivity.
Qed.

(** Once a run has settled, every file of its batch is on the results map
    or on the error map, and the failure of one task takes no outcome away
    from another; when the names of the batch are pairwise distinct, every
    file is on exactly one of the two maps, with the outcome of its own
    task. *)
Theorem each_file_one_outcome (B : Browser) (r : Run) (w : World) (i : nat) (file : File) :
  run_files r !! i = Some file ->
  let st := app (processFiles_finish B r w) in
  (is_Some (compressedResults st !! name file) \/ is_Some (errors st !! name file))
  /\ length (allSettled B (run_quality r) (run_files r) (next_url w)).1
     = length (run_files r)
  /\ (NoDup (name <$> run_files r) ->
      exactly_one_outcome st file
      /\ exists ui,
           match (compressFile B file (run_quality r) ui).1 with
           | fulfilled v =>
               compressedResults st !! name file = Some v
               /\ errors st !! name file = None
           | rejected reason =>
               compressedResults st !! name file = None
               /\ errors st !! name file = Some (failure_message reason)
           end).
Proof.
  intros Hf st. split; [exact (each_file_some_outcome B r w i file Hf)|].
  split; [apply allSettled_length|].
  intros Hnd. subst st. rewrite processFiles_finish_eq. simpl.
  destruct (allSettled_lookup B (run_quality r) _ (next_url w) _ _ Hf) as (ui & Hr).
  pose proof (collect_results_own _ _ i file _ Hnd Hf Hr) as Hown.
  split.
  - unfold exactly_one_outcome. simpl.
    destruct (compressFile B file (run_quality r) ui).1 as [v|reason];
      destruct Hown as [H1 H2]; rewrite H1, H2; [left | right]; split; eauto.
  - exists ui. exact Hown.
Qed.

Lemma each_file_one_outcome_witness :
  let r := {| run_files := [Sample.photo; Sample.corrupt]; run_quality := 0.8 |} in
  let st := app (processFiles_finish Sample.browser r initial_world) in
  exactly_one_outcome st Sample.corrupt
  /\ is_Some (errors st !! "corrupt.jpg")
  /\ is_Some (compressedResults st !! "photo.png").
Proof.
  destruct (each_file_one_outcome Sample.browser
              {| run_files := [Sample.photo; Sample.corrupt]; run_quality := 0.8 |}
              initial_world 1 Sample.corrupt eq_refl) as (_ & _ & H).
  split.
  - apply H. apply (bool_decide_unpack _). vm_compute. exact I.
  - split; vm_compute; eauto.
Defined.

(** ** Failure messages *)

(** Lines 125-129 taken alone, on reasons that [compressFile] does not
    reject with: an [Error] whose message is empty would be recorded with
    that empty message, and [undefined] as ["undefined"]; the fallback
    message would be used in neither case. *)
Lemma empty_message_kept :
  let es1 := (collect_results [Sample.photo] [rejected (JsError "")]).2 in
  let es2 := (collect_results [Sample.photo] [rejected JsUndefined]).2 in
  es1 !! "photo.png" = Some ""
  /\ es1 !! "photo.png" <> Some fallback_message
  /\ es2 !! "photo.png" = Some "undefined"
  /\ es2 !! "photo.png" <> Some fallback_message.
Proof.
  vm_compute. repeat split; discriminate.
Qed.

(** In a batch with one file per name, the failure of a task is recorded
    under the name of its file.  When the reason is an [Error], the record
    is its message as it is; when it is anything else, the record is its
    string form, and the fallback message stands in exactly when that
    string form is empty.  The tasks of [compressFile] reject with an
    [Error] that has a message, so a run records that message. *)
Theorem failure_recorded (files : list File)
    (results : list (PromiseSettledResult CompressedResult))
    (i : nat) (file : File) (reason : JsValue) :
  NoDup (name <$> files) ->
  files !! i = Some file ->
  results !! i = Some (rejected reason) ->
  let recorded := (collect_results files results).2 !! name file in
  (forall message, reason = JsError message -> recorded = Some message)
  /\ (instanceof_Error reason = false -> String_of reason <> "" ->
      recorded = Some (String_of reason))
  /\ (instanceof_Error reason = false -> String_of reason = "" ->
      recorded = Some fallback_message)
  /\ (forall B q u, results = (allSettled B q files u).1 ->
      exists message, reason = JsError message /\ message <> ""
                      /\ recorded = Some message).
Proof.
  intros Hnd Hf Hr recorded.
  assert (Hrec : recorded = Some (failure_message reason)).
  { exact (proj2 (collect_results_own files results i file _ Hnd Hf Hr)). }
  split; [|split; [|split]].
  - intros message ->. exact Hrec.
  - intros Hne Hs. rewrite Hrec. unfold failure_message, js_or. rewrite Hne.
    destruct (String.eqb_spec (String_of reason) ""); [contradiction | reflexivity].
  - intros Hne Hs. rewrite Hrec. unfold failure_message, js_or. rewrite Hne, Hs.
    reflexivity.
  - intros B q u ->. destruct (allSettled_rejected B q files u i reason Hr) as (m & -> & Hm).
    exists m. repeat split; assumption.
Qed.

Lemma failure_recorded_witness :
  let recorded :=
    (collect_results [Sample.photo; Sample.corrupt]
       (allSettled Sample.browser 0.8 [Sample.photo; Sample.corrupt] 0).1).2
    !! "corrupt.jpg" in
  recorded = Some "Не удалось загрузить изображение.".
Proof.
  destruct (failure_recorded [Sample.photo; Sample.corrupt]
              (allSettled Sample.browser 0.8 [Sample.photo; Sample.corrupt] 0).1
              1 Sample.corrupt (JsError "Не удалось загрузить изображение."))
    as (H & _).
  - apply (bool_decide_unpack _). vm_compute. exact I.
  - reflexivity.
  - reflexivity.
  - apply H. reflexivity.
Defined.


(** ** Running again *)

Section Rerun.

Lemma fold_sizes (files : list File)
    (results1 results2 : list (PromiseSettledResult CompressedResult))
    (rs1 rs2 : gmap string CompressedResult) (es1 es2 : gmap string string) :
  settled_size <$> results1 = settled_size <$> results2 ->
  size <$> rs1 = size <$> rs2 ->
  es1 = es2 ->
  size <$> (fold_left record_outcome (zip files results1) (rs1, es1)).1
  = size <$> (fold_left record_outcome (zip files results2) (rs2, es2)).1
  /\ (fold_left record_outcome (zip files results1) (rs1, es1)).2
     = (fold_left record_outcome (zip files results2) (rs2, es2)).2.
Proof.
  revert results1 results2 rs1 rs2 es1 es2.
  induction files as [|file files IH]; intros results1 results2 rs1 rs2 es1 es2 Hr Hrs Hes.
  - simpl. split; assumption.
  - destruct results1 as [|r1 results1], results2 as [|r2 results2];
      try discriminate Hr.
    + simpl. split; assumption.
    + rewrite !fmap_cons in Hr. inversion Hr as [[Hhead Htail]]. simpl.
      destruct r1 as [v1|x1], r2 as [v2|x2]; simpl in Hhead; try discriminate Hhead.
      * apply IH; [exact Htail | | exact Hes].
        rewrite !fmap_insert, Hrs. inversion Hhead. congruence.
      * apply IH; [exact Htail | exact Hrs |].
        inversion Hhead. congruence.
Qed.

End Rerun.

(** C7: a run over the same batch at the same quality records the same
    encoded sizes, and the same failures, whenever it is made; already one
    task on the same file and quality yields the same size, only the URL
    differs.  (The decoder and the encoder are functions of their input.) *)
Theorem rerun_same_sizes (B : Browser) (r : Run) (w1 w2 : World) :
  let st1 := app (processFiles_finish B r w1) in
  let st2 := app (processFiles_finish B r w2) in
  size <$> compressedResults st1 = size <$> compressedResults st2
  /\ errors st1 = errors st2
  /\ (forall file u1 u2,
        settled_size (compressFile B file (run_quality r) u1).1
        = settled_size (compressFile B file (run_quality r) u2).1).
Proof.
  intros st1 st2. subst st1 st2. rewrite !processFiles_finish_eq. simpl.
  destruct (fold_sizes (run_files r)
              (allSettled B (run_quality r) (run_files r) (next_url w1)).1
              (allSettled B (run_quality r) (run_files r) (next_url w2)).1
              ∅ ∅ ∅ ∅) as [H1 H2]; try reflexivity.
  { apply allSettled_settled_size. }
  split; [exact H1|]. split; [exact H2|].
  intros file u1 u2. apply compressFile_settled_size.
Qed.

(** ** Object URLs *)

Section Handles.
Variable B : Browser.

Lemma result_urls_empty : result_urls ∅ = [].
Proof. unfold result_urls. rewrite map_to_list_empty. reflexivity. Qed.

(** The URLs a settled run puts on display are its own, each once. *)
Lemma collected_urls (q : Q) (files : list File) (u : Url) :
  let m := (collect_results files (allSettled B q files u).1).1 in
  NoDup (result_urls m)
  /\ (forall x, x ∈ result_urls m -> u <= x < (allSettled B q files u).2).
Proof.
  intros m. split.
  - unfold result_urls. apply NoDup_fmap_2_strong; [|apply NoDup_map_to_list].
    intros [k1 r1] [k2 r2] H1 H2 Hu. simpl in Hu.
    apply elem_of_map_to_list in H1, H2.
    apply collect_results_Some in H1 as (i1 & f1 & Hf1 & Hr1 & Hn1).
    apply collect_results_Some in H2 as (i2 & f2 & Hf2 & Hr2 & Hn2).
    assert (i1 = i2) by (eapply allSettled_url_inj; eauto). subst i2.
    congruence.
  - intros x Hx. apply elem_of_result_urls in Hx as (k & r & Hk & <-).
    apply collect_results_Some in Hk as (i & f & _ & Hr & _).
    eapply allSettled_url_range. exact Hr.
Qed.

(** What a step does to the URLs: nothing (a selection, which drops the
    results it finds without revoking them, or a slider that did not
    move); or it revokes the results on display and drops them (a run
    starts, or a reset); or a run settles and its results go on display
    in place of whatever was there. *)
Lemma step_shape (e : Event) (w w' : World) :
  step B e w = Some w' ->
  (revoked w' = revoked w /\ next_url w' = next_url w
   /\ (compressedResults (app w') = compressedResults (app w)
       \/ compressedResults (app w') = ∅))
  \/ (revoked w' = (result_urls (compressedResults (app w)) ++ revoked w)%list
      /\ next_url w' = next_url w
      /\ compressedResults (app w') = ∅)
  \/ (exists r, revoked w' = revoked w
      /\ next_url w' = (allSettled B (run_quality r) (run_files r) (next_url w)).2
      /\ compressedResults (app w')
         = (collect_results (run_files r)
              (allSettled B (run_quality r) (run_files r) (next_url w)).1).1).
Proof.
  intros Hs. destruct e as [files | q | | i]; simpl in Hs.
  - destruct (batch_empty w && negb (length files =? 0)%nat); [|discriminate].
    inversion Hs; subst; clear Hs. left.
    unfold handleFileSelect. destruct (rejects_selection files).
    + simpl. auto.
    + match goal with |- context [useEffect ?x] =>
        destruct (useEffect_cases x) as [[_ ->] | [_ ->]] end; simpl;
        rewrite ?result_urls_empty; auto.
  - destruct (negb (batch_empty w) && negb (isProcessing (app w)) && on_slider q);
      [|discriminate].
    destruct (Qeq_bool q (quality (app w))); inversion Hs; subst; clear Hs.
    + left. auto.
    + match goal with |- context [useEffect ?x] =>
        destruct (useEffect_cases x) as [[_ ->] | [_ ->]] end; simpl.
      * left. auto.
      * right. left. auto.
  - destruct (negb (batch_empty w)); [|discriminate].
    inversion Hs; subst; clear Hs.
    destruct (useEffect_cases (handleReset w)) as [[_ ->] | [Hne _]].
    + right. left. simpl. auto.
    + simpl in Hne. congruence.
  - destruct (pending w !! i) as [r|]; [|discriminate].
    inversion Hs; subst; clear Hs. right. right. exists r.
    rewrite processFiles_finish_eq. simpl. auto.
Qed.

Lemma handles_sound_cleared (w' : World) (log : list Url) (next : Url) :
  NoDup log -> (forall u, u ∈ log -> u < next) ->
  revoked w' = log -> next_url w' = next -> compressedResults (app w') = ∅ ->
  handles_sound w'.
Proof.
  intros Hnd Hlt <- <- Hm. unfold handles_sound. rewrite Hm, result_urls_empty.
  split; [exact Hnd|]. split; [apply NoDup_nil_2|]. split; [exact Hlt|].
  intros u Hu. apply elem_of_nil in Hu. destruct Hu.
Qed.

Lemma step_handles_sound (e : Event) (w w' : World) :
  handles_sound w -> step B e w = Some w' -> handles_sound w'.
Proof.
  intros (Hrev & Hres & Hlt & Hlive) Hs.
  destruct (step_shape e w w' Hs)
    as [(E1 & E2 & [E3 | E3]) | [(E1 & E2 & E3) | (r & E1 & E2 & E3)]].
  - unfold handles_sound. rewrite E1, E2, E3. auto.
  - apply (handles_sound_cleared w' (revoked w) (next_url w)); auto.
  - apply (handles_sound_cleared w' (result_urls (compressedResults (app w)) ++ revoked w)
             (next_url w)); auto.
    + apply NoDup_app. split; [exact Hres|]. split; [|exact Hrev].
      intros u Hu. apply Hlive, Hu.
    + intros u Hu. apply elem_of_app in Hu as [Hu | Hu]; [apply Hlive, Hu | auto].
  - destruct (collected_urls (run_quality r) (run_files r) (next_url w)) as [Hnd Hrange].
    pose proof (allSettled_next B (run_quality r) (run_files r) (next_url w)) as Hn.
    unfold handles_sound. rewrite E1, E2, E3.
    split; [exact Hrev|]. split; [exact Hnd|]. split.
    + intros u Hu. apply Hlt in Hu. lia.
    + intros u Hu. apply Hrange in Hu. split; [lia|].
      intros Hr. apply Hlt in Hr. lia.
Qed.

(** In every state the page can reach, no URL has been revoked twice and
    no URL on display has been revoked. *)
Lemma reachable_handles_sound (w : World) : reachable B w -> handles_sound w.
Proof.
  apply (reachable_ind B handles_sound).
  - apply (handles_sound_cleared initial_world [] 0); try reflexivity.
    + apply NoDup_nil_2.
    + intros u Hu. apply elem_of_nil in Hu. destruct Hu.
  - intros e w0 w1. apply step_handles_sound.
Qed.

(** A URL that no result on display holds and that was not revoked is
    never revoked: only the URLs on display ever are. *)
Lemma step_leaked (e : Event) (w w' : World) (u : Url) :
  leaked w u -> step B e w = Some w' -> leaked w' u.
Proof.
  intros (Hlt & Hrev & Hres) Hs. unfold leaked.
  destruct (step_shape e w w' Hs)
    as [(E1 & E2 & [E3 | E3]) | [(E1 & E2 & E3) | (r & E1 & E2 & E3)]];
    rewrite E1, E2, E3, ?result_urls_empty.
  - auto.
  - split; [exact Hlt|]. split; [exact Hrev | apply not_elem_of_nil].
  - split; [exact Hlt|]. split; [|apply not_elem_of_nil].
    intros Hu. apply elem_of_app in Hu as [Hu | Hu]; auto.
  - destruct (collected_urls (run_quality r) (run_files r) (next_url w)) as [_ Hrange].
    pose proof (allSettled_next B (run_quality r) (run_files r) (next_url w)) as Hn.
    split; [lia|]. split; [exact Hrev|].
    intros Hu. apply Hrange in Hu. lia.
Qed.

Lemma run_leaked (events : list Event) (w w' : World) (u : Url) :
  leaked w u -> run B events w = Some w' -> leaked w' u.
Proof.
  revert w. induction events as [|e events IH]; intros w Hl Hrun; simpl in Hrun.
  - congruence.
  - destruct (step B e w) as [w1|] eqn:Es; [|discriminate].
    eapply IH; [|exact Hrun]. eapply step_leaked; eauto.
Qed.

End Handles.

(** C1 fails on the code.  A batch holds two files with the same name and
    both tasks succeed: two URLs are created, the second result takes the
    place of the first on the map, and the first URL is on no map from
    then on.  The reset revokes the one URL on display.  The other is never
    revoked, whatever happens to the page afterwards. *)
Theorem same_name_url_never_revoked :
  exists w1 w,
    run Sample.browser [Select [Sample.a1; Sample.a2]; Settle 0] initial_world = Some w1
    /\ next_url w1 = 2
    /\ result_urls (compressedResults (app w1)) = [1]
    /\ step Sample.browser Reset w1 = Some w
    /\ revoked w = [1]
    /\ compressedResults (app w) = ∅
    /\ pending w = []
    /\ leaked w 0
    /\ (forall events w', run Sample.browser events w = Some w' -> 0 ∉ revoked w').
Proof.
  eexists. eexists.
  split; [vm_compute; reflexivity|].
  split; [reflexivity|].
  split; [vm_compute; reflexivity|].
  split; [vm_compute; reflexivity|].
  split; [reflexivity|].
  split; [reflexivity|].
  split; [reflexivity|].
  assert (Hleak : forall w, next_url w = 2 -> revoked w = [1] ->
                            compressedResults (app w) = ∅ -> leaked w 0).
  { intros w Hn Hr Hm. unfold leaked. rewrite Hn, Hr, Hm, result_urls_empty.
    split; [lia|]. split; [|apply not_elem_of_nil].
    intros H. apply list_elem_of_singleton in H. discriminate H. }
  split.
  - apply Hleak; reflexivity.
  - intros events w' Hrun.
    eapply run_leaked in Hrun; [|apply Hleak; reflexivity].
    apply Hrun.
Qed.

(** The same loss without any clash of names: the reset button is pressed
    while the run is in flight; the run settles afterwards and stores its
    result in the component, whose batch is empty by then; the next
    selection drops that result without revoking its URL. *)
Lemma reset_in_flight_url_never_revoked :
  exists w,
    run Sample.browser [Select [Sample.photo]; Reset; Settle 0; Select [Sample.corrupt]]
      initial_world = Some w
    /\ next_url w = 1
    /\ revoked w = []
    /\ leaked w 0
    /\ (forall events w', run Sample.browser events w = Some w' -> 0 ∉ revoked w').
Proof.
  eexists.
  split; [vm_compute; reflexivity|].
  split; [reflexivity|].
  split; [reflexivity|].
  assert (Hleak : forall w, next_url w = 1 -> revoked w = [] ->
                            compressedResults (app w) = ∅ -> leaked w 0).
  { intros w Hn Hr Hm. unfold leaked. rewrite Hn, Hr, Hm, result_urls_empty.
    split; [lia|]. split; apply not_elem_of_nil. }
  split.
  - apply Hleak; reflexivity.
  - intros events w' Hrun.
    eapply run_leaked in Hrun; [|apply Hleak; reflexivity].
    apply Hrun.
Qed.

(** ** A page that is left to settle *)

Section Calm.
Variable B : Browser.

(** Every URL a run creates belongs to one of its fulfilled tasks. *)
Lemma allSettled_url_created (q : Q) (files : list File) (u x : Url) :
  u <= x < (allSettled B q files u).2 ->
  exists i v, (allSettled B q files u).1 !! i = Some (fulfilled v) /\ url v = x.
Proof.
  revert u. induction files as [|f rest IH]; intros u Hx; [simpl in Hx; lia|].
  rewrite allSettled_cons in Hx |- *. cbn [fst snd] in Hx |- *.
  destruct (compressFile_cases B f q u) as [(b & E) | (m & _ & E)];
    rewrite E in Hx |- *; cbn [fst snd] in Hx |- *.
  - destruct (decide (x = u)) as [-> | Hne].
    + exists 0. eexists. split; reflexivity.
    + destruct (IH (S u)) as (i & v & Hi & Hv); [lia|].
      exists (S i), v. split; assumption.
  - destruct (IH u Hx) as (i & v & Hi & Hv).
    exists (S i), v. split; assumption.
Qed.

(** With one file per name, every URL of the run goes on display. *)
Lemma collected_covers (q : Q) (files : list File) (u x : Url) :
  NoDup (name <$> files) ->
  u <= x < (allSettled B q files u).2 ->
  x ∈ result_urls (collect_results files (allSettled B q files u).1).1.
Proof.
  intros Hnd Hx. destruct (allSettled_url_created q files u x Hx) as (i & v & Hi & Hv).
  assert (Hlen : i < length files).
  { rewrite <- (allSettled_length B q files u). eapply lookup_lt_Some, Hi. }
  destruct (lookup_lt_is_Some_2 files i Hlen) as [f Hf].
  pose proof (collect_results_own files _ i f _ Hnd Hf Hi) as [Hrs _].
  apply elem_of_result_urls. eauto.
Qed.

Lemma idle_pending (w : World) : idle w = true -> pending w = [].
Proof. unfold idle. destruct (pending w); [reflexivity | discriminate]. Qed.

Lemma batch_empty_files (w : World) : batch_empty w = true -> originalFiles (app w) = [].
Proof. unfold batch_empty. destruct (originalFiles (app w)); [reflexivity | discriminate]. Qed.

Lemma accounted_revoke (w w' : World) :
  accounted w ->
  next_url w' = next_url w ->
  revoked w' = (result_urls (compressedResults (app w)) ++ revoked w)%list ->
  accounted w'.
Proof.
  intros Hacc Hn Hr u Hu. rewrite Hn in Hu. rewrite Hr. left.
  apply elem_of_app. destruct (Hacc u Hu); auto.
Qed.

Lemma accounted_same (w w' : World) :
  accounted w ->
  next_url w' = next_url w -> revoked w' = revoked w ->
  compressedResults (app w') = compressedResults (app w) ->
  accounted w'.
Proof.
  intros Hacc Hn Hr Hm u Hu. rewrite Hn in Hu. rewrite Hr, Hm. exact (Hacc u Hu).
Qed.

(** The effect on a page with no run in flight: nothing for an empty
    batch; otherwise the results on display are revoked and one run starts,
    closed over the batch and the quality on display. *)
Lemma calm_start (w : World) :
  accounted w ->
  (originalFiles (app w) = [] -> compressedResults (app w) = ∅) ->
  NoDup (name <$> originalFiles (app w)) ->
  pending w = [] ->
  calm_invariant (useEffect w).
Proof.
  intros Hacc Hempty Hnd Hp. destruct (useEffect_cases w) as [[Hnil ->] | [Hne ->]].
  - split; [exact Hacc|]. split; [exact Hempty|]. split; [exact Hnd|]. left. exact Hp.
  - split; [|split; [|split]].
    + apply (accounted_revoke w); [exact Hacc | reflexivity | reflexivity].
    + intros _. reflexivity.
    + exact Hnd.
    + right. split; [reflexivity|]. split; [exact Hne|]. simpl. rewrite Hp. reflexivity.
Qed.

Lemma step_calm_invariant (e : Event) (w w' : World) :
  calm_invariant w -> calm e w = true -> step B e w = Some w' -> calm_invariant w'.
Proof.
  intros (Hacc & Hempty & Hnd & Hpend) Hcalm Hs.
  destruct e as [files | q | | i]; simpl in Hcalm, Hs.
  - (* a selection *)
    apply andb_true_iff in Hcalm as [Hidle Hnames]. apply idle_pending in Hidle.
    destruct (batch_empty w) eqn:Hb; simpl in Hs; [|discriminate].
    destruct (negb (length files =? 0)%nat); [|discriminate].
    apply batch_empty_files in Hb. specialize (Hempty Hb).
    inversion Hs; subst; clear Hs. unfold handleFileSelect.
    destruct (rejects_selection files).
    + split; [|split; [|split]]; simpl; auto.
    + apply calm_start; simpl; auto.
      * intros u Hu. rewrite <- Hempty. exact (Hacc u Hu).
      * unfold one_file_per_name in Hnames. apply bool_decide_eq_true in Hnames.
        exact Hnames.
  - (* the slider *)
    apply idle_pending in Hcalm.
    destruct (negb (batch_empty w) && negb (isProcessing (app w)) && on_slider q);
      [|discriminate].
    destruct (Qeq_bool q (quality (app w))); inversion Hs; subst; clear Hs.
    + split; [|split; [|split]]; auto.
    + apply calm_start; simpl; auto.
  - (* the reset button *)
    apply idle_pending in Hcalm.
    destruct (negb (batch_empty w)); [|discriminate].
    inversion Hs; subst; clear Hs.
    apply calm_start; simpl; auto.
    + apply (accounted_revoke w); [exact Hacc | reflexivity | reflexivity].
    + apply NoDup_nil_2.
  - (* the run in flight settles *)
    destruct (pending w !! i) as [r|] eqn:Hi; [|discriminate].
    inversion Hs; subst; clear Hs.
    destruct Hpend as [Hp | (Hm & Hne & Hp)]; [rewrite Hp in Hi; discriminate|].
    rewrite Hp in Hi. destruct i as [|i]; [|discriminate].
    simpl in Hi. inversion Hi; subst r; clear Hi.
    rewrite processFiles_finish_eq. cbn [run_files run_quality resume app next_url
      revoked pending originalFiles compressedResults quality fst snd].
    pose proof (allSettled_next B (quality (app w)) (originalFiles (app w)) (next_url w))
      as Hn.
    split; [|split; [|split]].
    + intros u Hu. cbn [next_url revoked app compressedResults] in Hu |- *.
      destruct (decide (u < next_url w)) as [Hlt | Hge].
      * destruct (Hacc u Hlt) as [Hr | Hr]; [left; exact Hr|].
        rewrite Hm, result_urls_empty in Hr. apply elem_of_nil in Hr. destruct Hr.
      * right. apply collected_covers; [exact Hnd | lia].
    + cbn [app originalFiles]. intros E. congruence.
    + exact Hnd.
    + left. cbn [pending]. rewrite Hp. reflexivity.
Qed.

Lemma calm_run_invariant (events : list Event) (w w' : World) :
  calm_invariant w -> calm_run B events w = Some w' -> calm_invariant w'.
Proof.
  revert w. induction events as [|e events IH]; intros w Hinv Hrun; simpl in Hrun.
  - congruence.
  - destruct (calm e w) eqn:Hc; [|discriminate].
    destruct (step B e w) as [w1|] eqn:Es; [|discriminate].
    eapply IH; [|exact Hrun]. eapply step_calm_invariant; eauto.
Qed.

Lemma calm_run_run (events : list Event) (w w' : World) :
  calm_run B events w = Some w' -> run B events w = Some w'.
Proof.
  revert w. induction events as [|e events IH]; intros w Hrun; simpl in *; [exact Hrun|].
  destruct (calm e w); [|discriminate].
  destruct (step B e w); [apply IH; exact Hrun | discriminate].
Qed.

Lemma calm_invariant_initial : calm_invariant initial_world.
Proof.
  split; [|split; [|split]].
  - intros u Hu. simpl in Hu. lia.
  - reflexivity.
  - apply NoDup_nil_2.
  - left. reflexivity.
Qed.

(** On a page whose user lets each run settle and never selects two files
    of one name, every URL created is either on display and not revoked,
    or revoked, once, and no longer on display. *)
Lemma calm_page_releases_once (events : list Event) (w : World) (u : Url) :
  calm_run B events initial_world = Some w ->
  u < next_url w ->
  NoDup (revoked w)
  /\ ((u ∈ result_urls (compressedResults (app w)) /\ u ∉ revoked w)
      \/ (u ∈ revoked w /\ u ∉ result_urls (compressedResults (app w)))).
Proof.
  intros Hrun Hu.
  destruct (calm_run_invariant events _ _ calm_invariant_initial Hrun) as (Hacc & _).
  destruct (reachable_handles_sound B w) as (Hnd & _ & _ & Hlive).
  { exists events. apply calm_run_run, Hrun. }
  split; [exact Hnd|].
  destruct (decide (u ∈ result_urls (compressedResults (app w)))) as [Hin | Hout].
  - left. split; [exact Hin | apply Hlive, Hin].
  - right. destruct (Hacc u Hu) as [Hr | Hr]; [auto | contradiction].
Qed.

End Calm.

(** ** Sessions *)

(** A selection with a photo, a broken file and a text file; the run
    settles; the slider moves, which revokes the first URL and starts a
    second run; that run settles; the reset revokes the second URL. *)
Example calm_session :
  exists w,
    calm_run Sample.browser
      [Select [Sample.photo; Sample.corrupt; Sample.notes]; Settle 0;
       SetQuality 0.5; Settle 0; Reset] initial_world = Some w
    /\ app w = initial_state
    /\ next_url w = 2
    /\ revoked w = [1; 0].
Proof. eexists. split; [vm_compute; reflexivity|]. repeat split. Qed.

(** After the first run of that session the photo has a result and a
    download name, and the broken file has the message of the decoder. *)
Example settled_session :
  exists w,
    run Sample.browser [Select [Sample.photo; Sample.corrupt; Sample.notes]; Settle 0]
      initial_world = Some w
    /\ originalFiles (app w) = [Sample.photo; Sample.corrupt]
    /\ (size <$> compressedResults (app w)) !! "photo.png" = Some 9%N
    /\ errors (app w) !! "photo.png" = None
    /\ compressedResults (app w) !! "corrupt.jpg" = None
    /\ errors (app w) !! "corrupt.jpg" = Some "Не удалось загрузить изображение."
    /\ getCompressedFileName (name Sample.photo) = "photo_KolerskyAI_compressed.jpg".
Proof. eexists. split; [vm_compute; reflexivity|]. repeat split. Qed.

(** * Further properties *)

(** ** The batch *)

Section Batch.
Variable B : Browser.

Lemma filter_all_images (files : list File) :
  Forall (fun f => is_image f = true) (List.filter is_image files).
Proof.
  apply Forall_forall. intros f Hf. apply list_elem_of_In, filter_In in Hf. apply Hf.
Qed.

Lemma batch_ok_take (files : list File) : batch_ok (take 5 (List.filter is_image files)).
Proof.
  split.
  - rewrite length_take. lia.
  - apply Forall_take, filter_all_images.
Qed.

Lemma batch_ok_nil : batch_ok [].
Proof. split; [simpl; lia | constructor]. Qed.

Lemma handleFileSelect_batch_ok (files : list File) (st : AppState) :
  batch_ok (originalFiles st) -> batch_ok (originalFiles (handleFileSelect files st)).
Proof.
  intros H. unfold handleFileSelect. destruct (rejects_selection files); simpl;
    [exact H | apply batch_ok_take].
Qed.

(** The effect hands the batch on display to the run it starts. *)
Lemma useEffect_batches_ok (w : World) : batches_ok w -> batches_ok (useEffect w).
Proof.
  intros [Hb Hp]. destruct (useEffect_cases w) as [[_ ->] | [Hne ->]];
    [split; assumption|].
  split; [exact Hb|]. simpl. apply Forall_app. split; [exact Hp|].
  apply Forall_singleton. simpl. split; assumption.
Qed.

Lemma step_batches_ok (e : Event) (w w' : World) :
  batches_ok w -> step B e w = Some w' -> batches_ok w'.
Proof.
  intros [Hb Hp] Hs. destruct e as [files | q | | i]; simpl in Hs.
  - destruct (batch_empty w && negb (length files =? 0)%nat); [|discriminate].
    inversion Hs; subst; clear Hs.
    assert (H0 : batches_ok (with_app (handleFileSelect files (app w)) w)).
    { split; [apply handleFileSelect_batch_ok, Hb | exact Hp]. }
    destruct (rejects_selection files); [exact H0 | apply useEffect_batches_ok, H0].
  - destruct (negb (batch_empty w) && negb (isProcessing (app w)) && on_slider q);
      [|discriminate].
    destruct (Qeq_bool q (quality (app w))); inversion Hs; subst; clear Hs.
    + split; assumption.
    + apply useEffect_batches_ok. split; assumption.
  - destruct (negb (batch_empty w)); [|discriminate].
    inversion Hs; subst; clear Hs. apply useEffect_batches_ok.
    split; [apply batch_ok_nil | exact Hp].
  - destruct (pending w !! i) as [r|]; [|discriminate].
    inversion Hs; subst; clear Hs. rewrite processFiles_finish_eq.
    split; [exact Hb|]. simpl.
    apply Forall_forall. intros r' Hr'. rewrite Forall_forall in Hp. apply Hp.
    eapply list_elem_of_delete_inv, Hr'.
Qed.

End Batch.

(** X1: in every state the page can reach, the batch on display holds at
    most five files and every one of them is an image; the same holds of
    the batch of every run in flight, which is never empty. *)
Theorem batch_at_most_five_images (B : Browser) (w : World) :
  reachable B w ->
  length (originalFiles (app w)) <= 5
  /\ (forall f, f ∈ originalFiles (app w) -> is_image f = true)
  /\ (forall r, r ∈ pending w ->
        0 < length (run_files r) <= 5
        /\ forall f, f ∈ run_files r -> is_image f = true).
Proof.
  intros Hreach.
  assert (H : batches_ok w).
  { revert w Hreach. apply (reachable_ind B batches_ok).
    - split; [apply batch_ok_nil | constructor].
    - intros e w0 w1. apply step_batches_ok. }
  destruct H as [[Hlen Himg] Hp]. split; [exact Hlen|]. split.
  - rewrite Forall_forall in Himg. exact Himg.
  - intros r Hr. rewrite Forall_forall in Hp. destruct (Hp r Hr) as [[Hl Hi] Hne].
    split.
    + destruct (run_files r); [congruence | simpl in *; lia].
    + rewrite Forall_forall in Hi. exact Hi.
Qed.

Lemma batch_at_most_five_images_witness :
  exists w,
    run Sample.browser
      [Select [Sample.pic "1.jpg"; Sample.notes; Sample.pic "2.jpg"; Sample.pic "3.jpg";
               Sample.pic "4.jpg"; Sample.pic "5.jpg"; Sample.pic "6.jpg"]]
      initial_world = Some w
    /\ length (originalFiles (app w)) <= 5
    /\ (forall f, f ∈ originalFiles (app w) -> is_image f = true)
    /\ (forall r, r ∈ pending w ->
          0 < length (run_files r) <= 5
          /\ forall f, f ∈ run_files r -> is_image f = true).
Proof.
  eexists. split; [vm_compute; reflexivity|].
  apply (batch_at_most_five_images Sample.browser).
  exists [Select [Sample.pic "1.jpg"; Sample.notes; Sample.pic "2.jpg"; Sample.pic "3.jpg";
                  Sample.pic "4.jpg"; Sample.pic "5.jpg"; Sample.pic "6.jpg"]].
  vm_compute. reflexivity.
Defined.

(** X2: of a selection with at least one image the batch is the images, in
    the order of the selection, cut after the fifth; it is not empty; the
    files that are not images go without an error; and the errors and the
    results of before are cleared, while the quality stays. *)
Theorem selection_with_images (files : list File) (st : AppState) :
  List.filter is_image files <> [] ->
  let images := List.filter is_image files in
  let st' := handleFileSelect files st in
  originalFiles st' = take 5 images
  /\ originalFiles st' <> []
  /\ length (originalFiles st') = Nat.min 5 (length images)
  /\ (length images <= 5 -> originalFiles st' = images)
  /\ errors st' = ∅
  /\ compressedResults st' = ∅
  /\ quality st' = quality st.
Proof.
  intros Hne images st'.
  assert (Hst : st' = {| originalFiles := take 5 images;
                         quality := quality st;
                         isProcessing := isProcessing st;
                         compressedResults := ∅;
                         errors := ∅ |}).
  { subst st'. unfold handleFileSelect. rewrite (rejects_selection_false _ Hne).
    reflexivity. }
  rewrite Hst. cbn [originalFiles errors compressedResults quality].
  split; [reflexivity|]. split.
  { subst images. destruct (List.filter is_image files); [congruence | discriminate]. }
  split; [apply length_take|]. split; [|repeat split].
  intros Hle. apply take_ge. exact Hle.
Qed.

Lemma selection_with_images_witness :
  let st' := handleFileSelect [Sample.notes; Sample.photo; Sample.corrupt]
               (handleFileSelect [Sample.notes] initial_state) in
  originalFiles st' = [Sample.photo; Sample.corrupt]
  /\ errors st' = ∅.
Proof.
  destruct (selection_with_images [Sample.notes; Sample.photo; Sample.corrupt]
              (handleFileSelect [Sample.notes] initial_state))
    as (H1 & _ & _ & _ & H5 & _).
  - discriminate.
  - split; [exact H1 | exact H5].
Defined.

(** ** The uploader and the page *)

(** X3: the uploader calls [onFileSelect] only from a change or a drop that
    holds at least one file, and hands over those files as they are; a drop
    ends the dragging.  On a page that shows the uploader the selection is
    then taken: either no file is an image, and the global error is shown
    with the batch still empty and no run started, or the batch is set to
    at most five images, not empty, and exactly one run starts over it. *)
Theorem uploader_selection (B : Browser) (e : FileUploader.DomEvent)
    (isDragging isDragging' : bool) (files : list File) (w : World) :
  batch_empty w = true ->
  FileUploader.dispatch e isDragging = (isDragging', Some files) ->
  files <> []
  /\ ((e = FileUploader.onChange (Some files) /\ isDragging' = isDragging)
      \/ (e = FileUploader.onDrop (Some files) /\ isDragging' = false))
  /\ exists w',
       step B (Select files) w = Some w'
       /\ ((originalFiles (app w') = []
            /\ render (app w') = upload_view (Some no_images_message)
            /\ pending w' = pending w)
           \/ (originalFiles (app w') = take 5 (List.filter is_image files)
               /\ originalFiles (app w') <> []
               /\ isProcessing (app w') = true
               /\ errors (app w') = ∅
               /\ pending w'
                  = (pending w ++ [ {| run_files := take 5 (List.filter is_image files);
                                       run_quality := quality (app w) |} ])%list)).
Proof.
  intros Hempty Hd.
  assert (Hfiles : files <> []
                   /\ ((e = FileUploader.onChange (Some files) /\ isDragging' = isDragging)
                       \/ (e = FileUploader.onDrop (Some files) /\ isDragging' = false))).
  { destruct e as [[[|f fs]|] | | | | [[|f fs]|]]; simpl in Hd; inversion Hd; subst;
      (split; [discriminate|]); [left | right]; split; reflexivity. }
  destruct Hfiles as [Hne Hev]. split; [exact Hne|]. split; [exact Hev|].
  unfold step. rewrite Hempty.
  assert (Hn : (length files =? 0)%nat = false).
  { apply Nat.eqb_neq. destruct files; [congruence | discriminate]. }
  rewrite Hn. simpl negb. simpl andb. eexists. split; [reflexivity|].
  apply batch_empty_files in Hempty.
  unfold handleFileSelect. destruct (rejects_selection files) eqn:Hrej.
  - left. unfold render. simpl. rewrite Hempty. split; [reflexivity|].
    split; [|reflexivity]. rewrite lookup_singleton_eq. reflexivity.
  - right. unfold useEffect. simpl.
    assert (Himg : take 5 (List.filter is_image files) <> []).
    { unfold rejects_selection in Hrej.
      destruct (List.filter is_image files); [|discriminate].
      destruct files; [congruence | discriminate Hrej]. }
    destruct (take 5 (List.filter is_image files)) eqn:E; [congruence|].
    simpl. repeat split. discriminate.
Qed.

Lemma uploader_selection_witness :
  exists w',
    step Sample.browser (Select [Sample.notes; Sample.photo]) initial_world = Some w'
    /\ originalFiles (app w') = [Sample.photo]
    /\ isProcessing (app w') = true.
Proof.
  destruct (uploader_selection Sample.browser
              (FileUploader.onDrop (Some [Sample.notes; Sample.photo])) true false
              [Sample.notes; Sample.photo] initial_world eq_refl eq_refl)
    as (_ & _ & w' & Hs & [(H & _) | (H1 & _ & H3 & _)]).
  - exfalso. vm_compute in Hs. injection Hs as <-. discriminate H.
  - exists w'. split; [exact Hs|]. split; [exact H1 | exact H3].
Defined.

(** ** What a settled run leaves on the maps *)

Section Recorded.
Implicit Types (entries : list (File * PromiseSettledResult CompressedResult)).

(** Entries that do not set a name leave it as it was. *)
Lemma fold_results_other entries (rs : gmap string CompressedResult)
    (es : gmap string string) (k : string) :
  (forall j g v, entries !! j = Some (g, fulfilled v) -> name g <> k) ->
  (fold_left record_outcome entries (rs, es)).1 !! k = rs !! k.
Proof.
  revert rs es. induction entries as [|[g r] entries IH]; intros rs es H; [reflexivity|].
  simpl. destruct r as [v|x].
  - rewrite IH; [|intros j g' v' Hj; exact (H (S j) g' v' Hj)].
    apply lookup_insert_ne. exact (H 0 g v eq_refl).
  - apply IH. intros j g' v' Hj. exact (H (S j) g' v' Hj).
Qed.

Lemma fold_errors_other entries (rs : gmap string CompressedResult)
    (es : gmap string string) (k : string) :
  (forall j g x, entries !! j = Some (g, rejected x) -> name g <> k) ->
  (fold_left record_outcome entries (rs, es)).2 !! k = es !! k.
Proof.
  revert rs es. induction entries as [|[g r] entries IH]; intros rs es H; [reflexivity|].
  simpl. destruct r as [v|x].
  - apply IH. intros j g' x' Hj. exact (H (S j) g' x' Hj).
  - rewrite IH; [|intros j g' x' Hj; exact (H (S j) g' x' Hj)].
    apply lookup_insert_ne. exact (H 0 g x eq_refl).
Qed.

Lemma fold_results_last entries (rs : gmap string CompressedResult)
    (es : gmap string string) (i : nat) (f : File) (v : CompressedResult) :
  entries !! i = Some (f, fulfilled v) ->
  (forall j g v', i < j -> entries !! j = Some (g, fulfilled v') -> name g <> name f) ->
  (fold_left record_outcome entries (rs, es)).1 !! name f = Some v.
Proof.
  revert rs es i. induction entries as [|[g r] entries IH]; intros rs es i Hi Hlater;
    [discriminate|].
  destruct i as [|i]; simpl in Hi.
  - inversion Hi; subst. simpl. rewrite fold_results_other.
    + apply lookup_insert_eq.
    + intros j g' v' Hj. apply (Hlater (S j) g' v'); [lia | exact Hj].
  - simpl. destruct r; eapply IH; try exact Hi;
      intros j g' v' Hlt Hj; apply (Hlater (S j) g' v'); solve [lia | exact Hj].
Qed.

Lemma fold_errors_last entries (rs : gmap string CompressedResult)
    (es : gmap string string) (i : nat) (f : File) (x : JsValue) :
  entries !! i = Some (f, rejected x) ->
  (forall j g x', i < j -> entries !! j = Some (g, rejected x') -> name g <> name f) ->
  (fold_left record_outcome entries (rs, es)).2 !! name f = Some (failure_message x).
Proof.
  revert rs es i. induction entries as [|[g r] entries IH]; intros rs es i Hi Hlater;
    [discriminate|].
  destruct i as [|i]; simpl in Hi.
  - inversion Hi; subst. simpl. rewrite fold_errors_other.
    + apply lookup_insert_eq.
    + intros j g' x' Hj. apply (Hlater (S j) g' x'); [lia | exact Hj].
  - simpl. destruct r; eapply IH; try exact Hi;
      intros j g' x' Hlt Hj; apply (Hlater (S j) g' x'); solve [lia | exact Hj].
Qed.

End Recorded.

(** X4: once a run has settled, the names on the two maps are, together,
    the names of the files of the run and nothing else: a name that no file
    of the run bears is on neither map. *)
Theorem outcome_names (B : Browser) (r : Run) (w : World) :
  let st := app (processFiles_finish B r w) in
  dom (compressedResults st) ∪ dom (errors st)
  = (list_to_set (name <$> run_files r) : gset string)
  /\ (forall k, k ∉ name <$> run_files r ->
        compressedResults st !! k = None /\ errors st !! k = None).
Proof.
  intros st. subst st. rewrite processFiles_finish_eq. simpl.
  set (results := (allSettled B (run_quality r) (run_files r) (next_url w)).1).
  assert (Hin : forall k, (is_Some ((collect_results (run_files r) results).1 !! k)
                           \/ is_Some ((collect_results (run_files r) results).2 !! k))
                          -> k ∈ name <$> run_files r).
  { intros k [[v Hv] | [m Hm]].
    - apply collect_results_Some in Hv as (i & f & Hf & _ & <-).
      apply list_elem_of_fmap. exists f. split; [reflexivity|].
      eapply list_elem_of_lookup_2, Hf.
    - apply collect_errors_Some in Hm as (i & f & x & Hf & _ & <- & _).
      apply list_elem_of_fmap. exists f. split; [reflexivity|].
      eapply list_elem_of_lookup_2, Hf. }
  split.
  - apply set_eq. intros k. rewrite elem_of_union, !elem_of_dom, elem_of_list_to_set.
    split; [apply Hin|].
    intros Hk. apply list_elem_of_fmap in Hk as (f & -> & Hf).
    apply list_elem_of_lookup_1 in Hf as [i Hf].
    destruct (allSettled_lookup B (run_quality r) _ (next_url w) _ _ Hf) as (ui & Hr).
    fold results in Hr.
    destruct (compressFile B f (run_quality r) ui).1 as [v|x].
    + left. eapply collect_results_fulfilled; eauto.
    + right. eapply collect_errors_rejected; eauto.
  - intros k Hk. split.
    + destruct ((collect_results (run_files r) results).1 !! k) eqn:E; [|reflexivity].
      destruct Hk. apply Hin. left. eauto.
    + destruct ((collect_results (run_files r) results).2 !! k) eqn:E; [|reflexivity].
      destruct Hk. apply Hin. right. eauto.
Qed.

(** X5: when several files of a batch bear one name, the later outcome
    wins: a success is on record under the name of its file when no later
    file of that name succeeded, and a failure when no later file of that
    name failed. *)
Theorem later_outcome_wins (files : list File)
    (results : list (PromiseSettledResult CompressedResult))
    (i : nat) (file : File) (r : PromiseSettledResult CompressedResult) :
  files !! i = Some file ->
  results !! i = Some r ->
  (forall j g r', i < j -> files !! j = Some g -> results !! j = Some r' ->
                  is_fulfilled r' = is_fulfilled r -> name g <> name file) ->
  match r with
  | fulfilled v => (collect_results files results).1 !! name file = Some v
  | rejected reason =>
      (collect_results files results).2 !! name file = Some (failure_message reason)
  end.
Proof.
  intros Hf Hr Hlater.
  assert (Hi : zip files results !! i = Some (file, r)) by (apply zip_lookup; auto).
  destruct r as [v|x].
  - apply (fold_results_last _ _ _ i); [exact Hi|].
    intros j g v' Hlt Hj. apply zip_lookup in Hj as [Hg Hv].
    exact (Hlater j g (fulfilled v') Hlt Hg Hv eq_refl).
  - apply (fold_errors_last _ _ _ i); [exact Hi|].
    intros j g x' Hlt Hj. apply zip_lookup in Hj as [Hg Hx].
    exact (Hlater j g (rejected x') Hlt Hg Hx eq_refl).
Qed.

Lemma later_outcome_wins_witness :
  let results := (allSettled Sample.browser 0.8 [Sample.a1; Sample.a2] 0).1 in
  url <$> (collect_results [Sample.a1; Sample.a2] results).1 !! "a.png" = Some 1.
Proof.
  pose proof (later_outcome_wins [Sample.a1; Sample.a2]
                (allSettled Sample.browser 0.8 [Sample.a1; Sample.a2] 0).1
                1 Sample.a2
                (fulfilled {| blob := {| blob_size := 14; blob_type := "image/jpeg" |};
                              size := 14; url := 1 |}) eq_refl eq_refl) as H.
  simpl in H. change (name Sample.a2) with "a.png" in H. simpl. rewrite H.
  - reflexivity.
  - intros j g r' Hlt Hg. destruct j as [|[|j]]; [lia | lia | discriminate Hg].
Defined.

(** ** URLs over the life of the page *)

Section Urls.
Variable B : Browser.

Lemma allSettled_count (q : Q) (files : list File) (u : Url) :
  (allSettled B q files u).2
  = u + length (List.filter is_fulfilled (allSettled B q files u).1).
Proof.
  revert u. induction files as [|f rest IH]; intros u; [simpl; lia|].
  rewrite allSettled_cons. cbn [fst snd]. rewrite IH.
  destruct (compressFile_cases B f q u) as [(b & E) | (m & _ & E)]; rewrite E; simpl; lia.
Qed.

Lemma step_revoked_grows (e : Event) (w w' : World) (u : Url) :
  step B e w = Some w' -> u ∈ revoked w -> u ∈ revoked w'.
Proof.
  intros Hs Hu.
  destruct (step_shape B e w w' Hs)
    as [(E1 & _) | [(E1 & _) | (r & E1 & _)]]; rewrite E1; auto.
  apply elem_of_app. right. exact Hu.
Qed.

Lemma step_next_url_grows (e : Event) (w w' : World) :
  step B e w = Some w' -> next_url w <= next_url w'.
Proof.
  intros Hs.
  destruct (step_shape B e w w' Hs)
    as [(_ & E2 & _) | [(_ & E2 & _) | (r & _ & E2 & _)]]; rewrite E2; [lia | lia |].
  apply allSettled_next.
Qed.

Lemma run_revoked_grows (events : list Event) (w w' : World) (u : Url) :
  run B events w = Some w' -> u ∈ revoked w -> u ∈ revoked w'.
Proof.
  revert w. induction events as [|e events IH]; intros w Hrun Hu; simpl in Hrun.
  - inversion Hrun; subst. exact Hu.
  - destruct (step B e w) as [w1|] eqn:Es; [|discriminate].
    eapply IH; [exact Hrun|]. eapply step_revoked_grows; eauto.
Qed.

Lemma run_reachable (events : list Event) (w w' : World) :
  reachable B w -> run B events w = Some w' -> reachable B w'.
Proof.
  intros [events0 H0] Hrun. exists (events0 ++ events)%list.
  rewrite run_app, H0. exact Hrun.
Qed.

Lemma row_urls_on_display (st : AppState) (files : list File) (u : Url) :
  u ∈ concat (row_urls <$> (render_row st <$> files)) ->
  u ∈ result_urls (compressedResults st).
Proof.
  induction files as [|f files IH]; intros H.
  { apply elem_of_nil in H. destruct H. }
  rewrite !fmap_cons in H. cbn [concat] in H.
  apply elem_of_app in H as [Hu | H]; [|exact (IH H)].
  unfold row_urls, render_row in Hu. cbn [row_preview row_href] in Hu.
  destruct (compressedResults st !! name f) as [r|] eqn:Hr.
  - assert (u = url r) as ->.
    { rewrite andb_false_r in Hu. simpl in Hu.
      apply elem_of_cons in Hu as [-> | Hu]; [reflexivity|].
      apply list_elem_of_singleton in Hu. exact Hu. }
    apply elem_of_result_urls. eauto.
  - rewrite andb_true_r in Hu. destruct (isProcessing st); simpl in Hu;
      apply elem_of_nil in Hu; destruct Hu.
Qed.

(** Every URL a view refers to is the URL of a result on display. *)
Lemma view_urls_on_display (st : AppState) (u : Url) :
  u ∈ view_urls (render st) -> u ∈ result_urls (compressedResults st).
Proof.
  unfold render. destruct (originalFiles st) as [|f0 fs].
  - intros H. apply elem_of_nil in H. destruct H.
  - apply row_urls_on_display.
Qed.

End Urls.

(** X6: a run that settles creates one URL for each task that succeeded
    and none for a task that failed; when the files of the run bear
    distinct names, the URLs on display afterwards are exactly those. *)
Theorem urls_of_a_run (B : Browser) (r : Run) (w : World) :
  let results := (allSettled B (run_quality r) (run_files r) (next_url w)).1 in
  let n := length (List.filter is_fulfilled results) in
  let w' := processFiles_finish B r w in
  next_url w' = next_url w + n
  /\ (NoDup (name <$> run_files r) ->
      result_urls (compressedResults (app w')) ≡ₚ seq (next_url w) n).
Proof.
  intros results n w'. subst w'. rewrite processFiles_finish_eq. simpl.
  pose proof (allSettled_count B (run_quality r) (run_files r) (next_url w)) as Hc.
  fold results in Hc. fold n in Hc. split; [exact Hc|].
  intros Hnd.
  destruct (collected_urls B (run_quality r) (run_files r) (next_url w)) as [Hnd' Hrange].
  apply NoDup_Permutation; [exact Hnd' | apply NoDup_seq|].
  intros x. rewrite elem_of_seq. split.
  - intros Hx. apply Hrange in Hx. fold results n in Hc. lia.
  - intros Hx. apply collected_covers; [exact Hnd | lia].
Qed.

Lemma urls_of_a_run_witness :
  let r := {| run_files := [Sample.photo; Sample.corrupt; Sample.a1];
              run_quality := 0.8 |} in
  let w' := processFiles_finish Sample.browser r initial_world in
  next_url w' = 2
  /\ result_urls (compressedResults (app w')) ≡ₚ [0; 1].
Proof.
  destruct (urls_of_a_run Sample.browser
              {| run_files := [Sample.photo; Sample.corrupt; Sample.a1];
                 run_quality := 0.8 |} initial_world) as [H1 H2].
  split; [exact H1|].
  apply H2. apply (bool_decide_unpack _). vm_compute. exact I.
Defined.

(** X7: a URL that was revoked stays revoked, and the page never shows it
    again: in no later state does a preview or a download link refer to
    it, nor does any result on display hold it. *)
Theorem no_use_after_release (B : Browser) (events : list Event) (w w' : World) (u : Url) :
  reachable B w ->
  u ∈ revoked w ->
  run B events w = Some w' ->
  u ∈ revoked w'
  /\ (u ∉ result_urls (compressedResults (app w')))
  /\ (u ∉ view_urls (render (app w'))).
Proof.
  intros Hreach Hu Hrun.
  pose proof (run_revoked_grows B events w w' u Hrun Hu) as Hu'.
  destruct (reachable_handles_sound B w' (run_reachable B events w w' Hreach Hrun))
    as (_ & _ & _ & Hlive).
  split; [exact Hu'|].
  assert (Hout : u ∉ result_urls (compressedResults (app w'))).
  { intros Hin. destruct (Hlive u Hin) as [_ Hno]. contradiction. }
  split; [exact Hout|].
  intros Hv. apply Hout, view_urls_on_display, Hv.
Qed.

Lemma no_use_after_release_witness :
  exists w w',
    run Sample.browser [Select [Sample.photo]; Settle 0; SetQuality 0.5] initial_world
    = Some w
    /\ run Sample.browser [Settle 0] w = Some w'
    /\ 0 ∈ revoked w'
    /\ (0 ∉ result_urls (compressedResults (app w')))
    /\ (0 ∉ view_urls (render (app w'))).
Proof.
  eexists. eexists. split; [vm_compute; reflexivity|]. split; [vm_compute; reflexivity|].
  eapply (no_use_after_release Sample.browser [Settle 0]).
  - exists [Select [Sample.photo]; Settle 0; SetQuality 0.5]. vm_compute. reflexivity.
  - apply list_elem_of_singleton. reflexivity.
  - vm_compute. reflexivity.
Defined.

(** X8: in every state the page can reach, each URL that a preview or a
    download link refers to was created and has not been revoked. *)
Theorem rendered_urls_live (B : Browser) (w : World) (u : Url) :
  reachable B w ->
  u ∈ view_urls (render (app w)) ->
  u < next_url w /\ u ∉ revoked w.
Proof.
  intros Hreach Hu.
  destruct (reachable_handles_sound B w Hreach) as (_ & _ & _ & Hlive).
  apply Hlive, view_urls_on_display, Hu.
Qed.

Lemma rendered_urls_live_witness :
  exists w,
    run Sample.browser [Select [Sample.photo]; Settle 0; SetQuality 0.5; Settle 0]
      initial_world = Some w
    /\ view_urls (render (app w)) = [1; 1]
    /\ 1 < next_url w /\ 1 ∉ revoked w.
Proof.
  eexists. split; [vm_compute; reflexivity|]. split; [vm_compute; reflexivity|].
  apply (rendered_urls_live Sample.browser).
  - exists [Select [Sample.photo]; Settle 0; SetQuality 0.5; Settle 0].
    vm_compute. reflexivity.
  - vm_compute. apply elem_of_cons. left. reflexivity.
Defined.

(** ** The processing flag *)

Section Flag.
Variable B : Browser.

Lemma useEffect_flag_sound (w : World) :
  (isProcessing (app w) = true -> compressedResults (app w) = ∅) ->
  (pending w = [] -> isProcessing (app w) = false) ->
  flag_sound (useEffect w).
Proof.
  intros H1 H2. destruct (useEffect_cases w) as [[_ ->] | [_ ->]].
  - split; assumption.
  - split; simpl.
    + intros E. destruct (pending w); discriminate E.
    + intros _. reflexivity.
Qed.

Lemma step_flag_sound (e : Event) (w w' : World) :
  flag_sound w -> step B e w = Some w' -> flag_sound w'.
Proof.
  intros [Hidle Hbusy] Hs. destruct e as [files | q | | i]; simpl in Hs.
  - destruct (batch_empty w && negb (length files =? 0)%nat); [|discriminate].
    inversion Hs; subst; clear Hs. unfold handleFileSelect.
    destruct (rejects_selection files).
    + split; simpl; assumption.
    + apply useEffect_flag_sound; simpl; auto.
  - destruct (negb (batch_empty w) && negb (isProcessing (app w)) && on_slider q);
      [|discriminate].
    destruct (Qeq_bool q (quality (app w))); inversion Hs; subst; clear Hs.
    + split; assumption.
    + apply useEffect_flag_sound; simpl; auto.
  - destruct (negb (batch_empty w)); [|discriminate].
    inversion Hs; subst; clear Hs.
    apply useEffect_flag_sound; simpl; auto.
  - destruct (pending w !! i) as [r|]; [|discriminate].
    inversion Hs; subst; clear Hs. rewrite processFiles_finish_eq.
    split; simpl; [reflexivity | discriminate].
Qed.

Lemma reachable_flag_sound (w : World) : reachable B w -> flag_sound w.
Proof.
  apply (reachable_ind B flag_sound).
  - split; simpl; [reflexivity | discriminate].
  - intros e w0 w1. apply step_flag_sound.
Qed.

End Flag.

(** X9: in every state the page can reach, the processing flag is off when
    no run is in flight, and no result is on display while it is on; so a
    row with the flag on shows the spinner, and its download is disabled. *)
Theorem processing_flag (B : Browser) (w : World) (file : File) :
  reachable B w ->
  (pending w = [] -> isProcessing (app w) = false)
  /\ (isProcessing (app w) = true ->
      compressedResults (app w) = ∅
      /\ row_preview (render_row (app w) file) = preview_spinner
      /\ row_status (render_row (app w) file) = status_compressing
      /\ row_href (render_row (app w) file) = None
      /\ row_disabled (render_row (app w) file) = true).
Proof.
  intros Hreach. destruct (reachable_flag_sound B w Hreach) as [Hidle Hbusy].
  split; [exact Hidle|]. intros Hp. specialize (Hbusy Hp).
  split; [exact Hbusy|]. unfold render_row. rewrite Hbusy, Hp, lookup_empty.
  repeat split.
Qed.

Lemma processing_flag_witness :
  exists w,
    run Sample.browser [Select [Sample.photo]; Settle 0; SetQuality 0.5] initial_world
    = Some w
    /\ isProcessing (app w) = true
    /\ (pending w = [] -> isProcessing (app w) = false)
    /\ (isProcessing (app w) = true ->
        compressedResults (app w) = ∅
        /\ row_preview (render_row (app w) Sample.photo) = preview_spinner
        /\ row_status (render_row (app w) Sample.photo) = status_compressing
        /\ row_href (render_row (app w) Sample.photo) = None
        /\ row_disabled (render_row (app w) Sample.photo) = true).
Proof.
  eexists. split; [vm_compute; reflexivity|]. split; [reflexivity|].
  apply (processing_flag Sample.browser).
  exists [Select [Sample.photo]; Settle 0; SetQuality 0.5]. vm_compute. reflexivity.
Defined.

(** ** A page that is left to settle, continued *)

Section CalmPage.
Variable B : Browser.

Lemma useEffect_up_to_date (w : World) :
  up_to_date B w -> up_to_date B (useEffect w).
Proof.
  intros H. destruct (useEffect_cases w) as [[_ ->] | [_ ->]]; [exact H|].
  intros Hp. simpl in Hp. destruct (pending w); discriminate Hp.
Qed.

Lemma up_to_date_no_batch (w : World) : originalFiles (app w) = [] -> up_to_date B w.
Proof. intros E _ Hne. congruence. Qed.

Lemma step_up_to_date (e : Event) (w w' : World) :
  calm_invariant w -> up_to_date B w -> calm e w = true -> step B e w = Some w' ->
  up_to_date B w'.
Proof.
  intros (_ & _ & _ & Hpend) Hup Hcalm Hs.
  destruct e as [files | q | | i]; simpl in Hcalm, Hs.
  - destruct (batch_empty w) eqn:Hb; simpl in Hs; [|discriminate].
    destruct (negb (length files =? 0)%nat); [|discriminate].
    apply batch_empty_files in Hb. inversion Hs; subst; clear Hs.
    unfold handleFileSelect. destruct (rejects_selection files).
    + apply up_to_date_no_batch. exact Hb.
    + unfold useEffect. simpl.
      destruct (take 5 (List.filter is_image files)) eqn:E.
      * apply up_to_date_no_batch. reflexivity.
      * intros Hp. simpl in Hp. destruct (pending w); discriminate Hp.
  - destruct (negb (batch_empty w) && negb (isProcessing (app w)) && on_slider q);
      [|discriminate].
    destruct (Qeq_bool q (quality (app w))); inversion Hs; subst; clear Hs; [exact Hup|].
    destruct (useEffect_cases (with_app (with_quality q (app w)) w))
      as [[Hnil ->] | [_ ->]].
    + apply up_to_date_no_batch. exact Hnil.
    + intros Hp. simpl in Hp. destruct (pending w); discriminate Hp.
  - destruct (negb (batch_empty w)); [|discriminate].
    inversion Hs; subst; clear Hs. apply up_to_date_no_batch. reflexivity.
  - destruct (pending w !! i) as [r|] eqn:Hi; [|discriminate].
    inversion Hs; subst; clear Hs.
    destruct Hpend as [Hp | (_ & _ & Hp)]; [rewrite Hp in Hi; discriminate|].
    rewrite Hp in Hi. destruct i as [|i]; [|discriminate].
    simpl in Hi. inversion Hi; subst r; clear Hi.
    rewrite processFiles_finish_eq. intros _ _. exists (next_url w). split; reflexivity.
Qed.

Lemma calm_run_up_to_date (events : list Event) (w w' : World) :
  calm_invariant w -> up_to_date B w -> calm_run B events w = Some w' ->
  calm_invariant w' /\ up_to_date B w'.
Proof.
  revert w. induction events as [|e events IH]; intros w Hinv Hup Hrun; simpl in Hrun.
  - inversion Hrun; subst. split; assumption.
  - destruct (calm e w) eqn:Hc; [|discriminate].
    destruct (step B e w) as [w1|] eqn:Es; [|discriminate].
    eapply IH; [| |exact Hrun].
    + eapply step_calm_invariant; eauto.
    + eapply step_up_to_date; eauto.
Qed.

(** On a calm page with no run in flight, each file of the batch has the
    outcome of its own task at the quality on display, and nothing else. *)
Lemma calm_outcome (events : list Event) (w : World) (i : nat) (file : File) :
  calm_run B events initial_world = Some w ->
  pending w = [] ->
  originalFiles (app w) !! i = Some file ->
  isProcessing (app w) = false
  /\ exists ui,
       match (compressFile B file (quality (app w)) ui).1 with
       | fulfilled v =>
           compressedResults (app w) !! name file = Some v
           /\ errors (app w) !! name file = None
       | rejected reason =>
           compressedResults (app w) !! name file = None
           /\ errors (app w) !! name file = Some (failure_message reason)
           /\ failure_message reason <> ""
       end.
Proof.
  intros Hrun Hp Hf.
  destruct (calm_run_up_to_date events initial_world w calm_invariant_initial
              (up_to_date_no_batch initial_world eq_refl) Hrun)
    as [(_ & _ & Hnd & _) Hup].
  split.
  { apply (reachable_flag_sound B w); [|exact Hp].
    exists events. apply calm_run_run, Hrun. }
  destruct Hup as (u & Hrs & Hes); [exact Hp | intros E; rewrite E in Hf; discriminate|].
  destruct (allSettled_lookup B (quality (app w)) _ u _ _ Hf) as (ui & Hr).
  pose proof (collect_results_own _ _ i file _ Hnd Hf Hr) as Hown.
  exists ui. rewrite Hrs, Hes.
  destruct (compressFile B file (quality (app w)) ui).1 as [v|x] eqn:E; [exact Hown|].
  destruct Hown as [H1 H2]. split; [exact H1|]. split; [exact H2|].
  destruct (allSettled_rejected B _ _ u i x Hr) as (m & -> & Hm). exact Hm.
Qed.

End CalmPage.

(** X10: on a page whose user lets each run settle and never selects two
    files of one name, whenever no run is in flight the maps on display are
    those of the batch on display at the quality on display: every file of
    the batch has exactly one outcome, the one of its own task at that
    quality. *)
Theorem calm_page_up_to_date (B : Browser) (events : list Event) (w : World)
    (i : nat) (file : File) :
  calm_run B events initial_world = Some w ->
  pending w = [] ->
  originalFiles (app w) !! i = Some file ->
  exactly_one_outcome (app w) file
  /\ exists ui,
       match (compressFile B file (quality (app w)) ui).1 with
       | fulfilled v => compressedResults (app w) !! name file = Some v
       | rejected reason => errors (app w) !! name file = Some (failure_message reason)
       end.
Proof.
  intros Hrun Hp Hf.
  destruct (calm_outcome B events w i file Hrun Hp Hf) as (_ & ui & H).
  split.
  - unfold exactly_one_outcome.
    destruct (compressFile B file (quality (app w)) ui).1 as [v|x].
    + destruct H as [H1 H2]. left. rewrite H1, H2. split; eauto.
    + destruct H as (H1 & H2 & _). right. rewrite H1, H2. split; eauto.
  - exists ui. destruct (compressFile B file (quality (app w)) ui).1 as [v|x];
      [apply H | apply H].
Qed.

Lemma calm_page_up_to_date_witness :
  exists w,
    calm_run Sample.browser
      [Select [Sample.photo; Sample.corrupt]; Settle 0; SetQuality 0.5; Settle 0]
      initial_world = Some w
    /\ exactly_one_outcome (app w) Sample.corrupt.
Proof.
  eexists. split; [vm_compute; reflexivity|].
  eapply (calm_page_up_to_date Sample.browser
            [Select [Sample.photo; Sample.corrupt]; Settle 0; SetQuality 0.5; Settle 0]
            _ 1 Sample.corrupt).
  - vm_compute. reflexivity.
  - reflexivity.
  - reflexivity.
Defined.

(** X11: on such a page, with no run in flight, every row shows either the
    encoded size, with the preview and an enabled download link to a URL
    that has not been revoked, or the error text, with no preview and the
    download disabled; no row shows the spinner or the placeholder. *)
Theorem calm_page_rows (B : Browser) (events : list Event) (w : World)
    (i : nat) (file : File) :
  calm_run B events initial_world = Some w ->
  pending w = [] ->
  originalFiles (app w) !! i = Some file ->
  let row := render_row (app w) file in
  (exists r, compressedResults (app w) !! name file = Some r
             /\ row_status row = status_compressed (size r)
             /\ row_preview row = preview_img (url r)
             /\ row_href row = Some (url r)
             /\ row_disabled row = false
             /\ url r ∉ revoked w)
  \/ (row_status row = status_error
      /\ row_preview row = preview_none
      /\ row_href row = None
      /\ row_disabled row = true).
Proof.
  intros Hrun Hp Hf row. subst row.
  destruct (calm_outcome B events w i file Hrun Hp Hf) as (Hflag & ui & H).
  unfold render_row. rewrite Hflag.
  destruct (compressFile B file (quality (app w)) ui).1 as [v|x].
  - destruct H as [H1 H2]. left. exists v. rewrite H1. simpl.
    repeat split.
    destruct (reachable_handles_sound B w) as (_ & _ & _ & Hlive).
    { exists events. apply calm_run_run, Hrun. }
    apply Hlive, elem_of_result_urls. eauto.
  - destruct H as (H1 & H2 & H3). right. rewrite H1, H2. simpl.
    destruct (String.eqb_spec (failure_message x) ""); [contradiction|].
    repeat split.
Qed.

Lemma calm_page_rows_witness :
  exists w,
    calm_run Sample.browser [Select [Sample.photo; Sample.corrupt]; Settle 0]
      initial_world = Some w
    /\ row_status (render_row (app w) Sample.corrupt) = status_error
    /\ row_status (render_row (app w) Sample.photo) = status_compressed 9.
Proof.
  eexists. split; [vm_compute; reflexivity|].
  destruct (calm_page_rows Sample.browser
              [Select [Sample.photo; Sample.corrupt]; Settle 0] _ 1 Sample.corrupt
              eq_refl eq_refl eq_refl) as [(r & Hr & _) | (H & _)].
  - vm_compute in Hr. discriminate Hr.
  - split; [exact H | vm_compute; reflexivity].
Defined.

(** X12: on such a page, a reset pressed when no run is in flight brings
    the component back to its initial state, and after it every URL that
    was ever created has been revoked, exactly once. *)
Theorem calm_reset_releases_all (B : Browser) (events : list Event) (w w' : World) :
  calm_run B events initial_world = Some w ->
  pending w = [] ->
  step B Reset w = Some w' ->
  app w' = initial_state
  /\ revoked w' ≡ₚ seq 0 (next_url w')
  /\ render (app w') = upload_view None.
Proof.
  intros Hrun Hp Hs.
  assert (Hreach : reachable B w) by (exists events; apply calm_run_run, Hrun).
  pose proof (proj1 (reachable_flag_sound B w Hreach) Hp) as Hflag.
  assert (Hrun' : calm_run B (events ++ [Reset]) initial_world = Some w').
  { clear Hreach Hflag. revert Hrun. generalize initial_world.
    induction events as [|e events IH]; intros w0 Hrun; simpl in *.
    - inversion Hrun; subst. unfold idle. rewrite Hp.
      unfold step in Hs. rewrite Hs. reflexivity.
    - destruct (calm e w0); [|discriminate].
      destruct (step B e w0); [apply IH; exact Hrun | discriminate]. }
  destruct (calm_run_invariant B _ _ _ calm_invariant_initial Hrun') as (Hacc & _).
  destruct (reachable_handles_sound B w' (reachable_step B Reset w w' Hreach Hs))
    as (Hnd & _ & Hlt & _).
  simpl in Hs. destruct (negb (batch_empty w)); [|discriminate].
  assert (Hw' : w' = handleReset w).
  { destruct (useEffect_cases (handleReset w)) as [[_ E] | [Hne _]];
      [congruence | simpl in Hne; congruence]. }
  assert (Happ : app w' = initial_state).
  { rewrite Hw', handleReset_app, Hflag. reflexivity. }
  split; [exact Happ|]. split.
  - apply NoDup_Permutation; [exact Hnd | apply NoDup_seq|].
    intros u. rewrite elem_of_seq. split.
    + intros Hu. apply Hlt in Hu. lia.
    + intros Hu. destruct (Hacc u) as [H | H]; [lia | exact H|].
      rewrite Happ in H. simpl in H. rewrite result_urls_empty in H.
      apply elem_of_nil in H. destruct H.
  - rewrite Happ. reflexivity.
Qed.

Lemma calm_reset_releases_all_witness :
  exists w w',
    calm_run Sample.browser
      [Select [Sample.photo; Sample.corrupt]; Settle 0; SetQuality 0.5; Settle 0]
      initial_world = Some w
    /\ step Sample.browser Reset w = Some w'
    /\ app w' = initial_state
    /\ revoked w' ≡ₚ seq 0 (next_url w')
    /\ next_url w' = 2.
Proof.
  eexists. eexists. split; [vm_compute; reflexivity|]. split; [vm_compute; reflexivity|].
  destruct (calm_reset_releases_all Sample.browser
              [Select [Sample.photo; Sample.corrupt]; Settle 0; SetQuality 0.5; Settle 0]
              _ _ eq_refl eq_refl eq_refl) as (H1 & H2 & _).
  split; [exact H1|]. split; [exact H2 | reflexivity].
Defined.

(** ** Download names, continued *)

Lemma string_app_inv_tail (a b s : string) : a ++ s = b ++ s -> a = b.
Proof.
  intros H.
  assert (Hlen : String.length a = String.length b).
  { apply (f_equal String.length) in H. rewrite !length_app_string in H. lia. }
  revert b H Hlen. induction a as [|c a IH]; intros [|d b] H Hlen;
    try discriminate Hlen; [reflexivity|].
  change (String c (a ++ s) = String d (b ++ s)) in H.
  injection H as -> H. f_equal. apply IH; [exact H|].
  simpl in Hlen. lia.
Qed.

(** X13: two files [base1.ext1] and [base2.ext2] get the same download name
    exactly when what stands before their last dot is the same; so files
    with different names, such as a [.png] and a [.webp] of one base name,
    share a download name. *)
Theorem download_names_collide (base1 ext1 base2 ext2 : string) :
  JsString.dotless ext1 = true ->
  JsString.dotless ext2 = true ->
  getCompressedFileName (base1 ++ "." ++ ext1) = getCompressedFileName (base2 ++ "." ++ ext2)
  <-> base1 = base2.
Proof.
  intros H1 H2. rewrite !getCompressedFileName_ext by assumption. split.
  - apply string_app_inv_tail.
  - intros ->. reflexivity.
Qed.

Lemma download_names_collide_witness :
  getCompressedFileName "photo.png" = getCompressedFileName "photo.webp"
  /\ getCompressedFileName "photo.png" <> getCompressedFileName "photos.png".
Proof.
  split.
  - apply (download_names_collide "photo" "png" "photo" "webp"); reflexivity.
  - intros E.
    apply (download_names_collide "photo" "png" "photos" "png") in E;
      [discriminate E | reflexivity | reflexivity].
Defined.

(** ** What the maps hold *)

Section Maps.
Variable B : Browser.

Lemma compressFile_shape (file : File) (q : Q) (next : Url) :
  match (compressFile B file q next).1 with
  | fulfilled v => size v = blob_size (blob v)
  | rejected reason => exists m, reason = JsError m /\ m ∈ compress_messages
  end.
Proof.
  unfold compressFile, compress_messages.
  destruct (readAsDataURL B file) as [[dataUrl|]|]; simpl;
    [|eexists; split; [reflexivity|set_solver]..].
  destruct (decode B dataUrl) as [width height|]; simpl;
    [|eexists; split; [reflexivity|set_solver]].
  destruct (getContext B width height); simpl;
    [|eexists; split; [reflexivity|set_solver]].
  destruct (toBlob B dataUrl width height "image/jpeg" q); simpl;
    [reflexivity | eexists; split; [reflexivity|set_solver]].
Qed.

Lemma allSettled_shape (q : Q) (files : list File) (u : Url) (i : nat)
    (r : PromiseSettledResult CompressedResult) :
  (allSettled B q files u).1 !! i = Some r ->
  match r with
  | fulfilled v => size v = blob_size (blob v)
  | rejected reason => exists m, reason = JsError m /\ m ∈ compress_messages
  end.
Proof.
  revert u i. induction files as [|f rest IH]; intros u i Hi; [discriminate|].
  rewrite allSettled_cons in Hi. destruct i as [|i]; simpl in Hi.
  - inversion Hi; subst. apply compressFile_shape.
  - eapply IH, Hi.
Qed.

Lemma step_maps_sound (e : Event) (w w' : World) :
  maps_sound w -> step B e w = Some w' -> maps_sound w'.
Proof.
  intros [Hrs Hes] Hs.
  assert (Hclear : forall w0, compressedResults (app w0) = ∅ -> errors (app w0) = ∅ ->
                              maps_sound w0).
  { intros w0 E1 E2. split; intros k x; rewrite ?E1, ?E2, lookup_empty; discriminate. }
  assert (Heffect : forall w0, maps_sound w0 -> maps_sound (useEffect w0)).
  { intros w0 [H1 H2]. destruct (useEffect_cases w0) as [[_ ->] | [_ ->]];
      [split; assumption|].
    split; simpl; [intros k x; rewrite lookup_empty; discriminate | exact H2]. }
  destruct e as [files | q | | i]; simpl in Hs.
  - destruct (batch_empty w && negb (length files =? 0)%nat); [|discriminate].
    inversion Hs; subst; clear Hs. unfold handleFileSelect.
    destruct (rejects_selection files).
    + split; simpl; [exact Hrs|].
      intros k m Hk. apply lookup_singleton_Some in Hk as [<- <-]. left. split; reflexivity.
    + apply Heffect, Hclear; reflexivity.
  - destruct (negb (batch_empty w) && negb (isProcessing (app w)) && on_slider q);
      [|discriminate].
    destruct (Qeq_bool q (quality (app w))); inversion Hs; subst; clear Hs.
    + split; assumption.
    + apply Heffect. split; assumption.
  - destruct (negb (batch_empty w)); [|discriminate].
    inversion Hs; subst; clear Hs. apply Heffect, Hclear; reflexivity.
  - destruct (pending w !! i) as [r|]; [|discriminate].
    inversion Hs; subst; clear Hs. rewrite processFiles_finish_eq. split; simpl.
    + intros k v Hk. apply collect_results_Some in Hk as (j & f & _ & Hj & _).
      exact (allSettled_shape _ _ _ _ _ Hj).
    + intros k m Hk. apply collect_errors_Some in Hk as (j & f & x & _ & Hj & _ & ->).
      destruct (allSettled_shape _ _ _ _ _ Hj) as (m & -> & Hm). right. exact Hm.
Qed.

Lemma reachable_maps_sound (w : World) : reachable B w -> maps_sound w.
Proof.
  apply (reachable_ind B maps_sound).
  - split; intros k x; simpl; rewrite lookup_empty; discriminate.
  - intros e w0 w1. apply step_maps_sound.
Qed.

End Maps.

(** X14: in every state the page can reach, the size shown for a file is
    the size of the blob its download link serves. *)
Theorem shown_size_is_blob_size (B : Browser) (w : World) (k : string)
    (r : CompressedResult) :
  reachable B w ->
  compressedResults (app w) !! k = Some r ->
  size r = blob_size (blob r).
Proof.
  intros Hreach Hk. exact (proj1 (reachable_maps_sound B w Hreach) k r Hk).
Qed.

Lemma shown_size_is_blob_size_witness :
  exists w r,
    run Sample.browser [Select [Sample.photo]; Settle 0] initial_world = Some w
    /\ compressedResults (app w) !! "photo.png" = Some r
    /\ size r = blob_size (blob r).
Proof.
  eexists. eexists. split; [vm_compute; reflexivity|]. split; [vm_compute; reflexivity|].
  eapply (shown_size_is_blob_size Sample.browser _ "photo.png").
  - exists [Select [Sample.photo]; Settle 0]. vm_compute. reflexivity.
  - vm_compute. reflexivity.
Defined.

(** X15: in every state the page can reach, an entry of the error map is
    either the message of a selection without images, under the key
    ["global"], or one of the five messages [compressFile] rejects with;
    the fallback message of line 128 is never recorded, and no recorded
    message is empty. *)
Theorem recorded_errors (B : Browser) (w : World) (k m : string) :
  reachable B w ->
  errors (app w) !! k = Some m ->
  ((k = "global" /\ m = no_images_message) \/ m ∈ compress_messages)
  /\ m <> fallback_message
  /\ m <> "".
Proof.
  intros Hreach Hk.
  pose proof (proj2 (reachable_maps_sound B w Hreach) k m Hk) as H.
  split; [exact H|].
  destruct H as [[_ ->] | H].
  - split; discriminate.
  - unfold compress_messages in H.
    repeat (apply elem_of_cons in H as [-> | H]; [split; discriminate|]).
    apply elem_of_nil in H. destruct H.
Qed.

Lemma recorded_errors_witness :
  exists w,
    run Sample.browser [Select [Sample.photo; Sample.corrupt]; Settle 0] initial_world
    = Some w
    /\ errors (app w) !! "corrupt.jpg" = Some "Не удалось загрузить изображение."
    /\ "Не удалось загрузить изображение." <> fallback_message.
Proof.
  eexists. split; [vm_compute; reflexivity|]. split; [vm_compute; reflexivity|].
  eapply (recorded_errors Sample.browser _ "corrupt.jpg").
  - exists [Select [Sample.photo; Sample.corrupt]; Settle 0]. vm_compute. reflexivity.
  - vm_compute. reflexivity.
Defined.
